(** * Three command-line tools of [day02-mirco-clis]

    A shallow embedding of
    - [tool3_csv_quicklook.py], the single-pass CSV profiler: [is_missing],
      [is_number] and [main], with the properties of the profile that [main]
      prints;
    - [tool2_password_gen.py], the password generator: [generate_password]
      and [main] (module [PasswordGen]);
    - [tool1_file_stats.py], the line, word and character counter: [main]
      (module [FileStats]).

    Conventions of the embedding.
    - A Python [str] is the list of its code points.
    - A Python [int] is a [Z].
    - A Python [dict] with [str] keys is a [gmap str _]; [d[k]] on an
      absent key raises [KeyError], [d.get(k, x)] does not.
    - Row dicts are objects: they live in a store and are handled through
      references, so that [preview_rows.append(row)] shares the row.
    - Exceptions are values of [exn]; a computation that may raise has
      type [result _]. *)

From Stdlib Require Import ZArith NArith List String Ascii Bool Lia Floats Uint63.
From stdpp Require Import base option list gmap.
From Equations Require Import Equations.

Local Open Scope Z_scope.

(** ** Strings *)

Definition char := N.
Definition str := list char.

(** A literal of the source as a [str]. *)
Definition lit (s : string) : str :=
  map N_of_ascii (list_ascii_of_string s).

(** [str.isspace] on one code point, the characters that the argument-less
    [str.strip()] removes. *)
Definition is_space (c : char) : bool :=
  ((9 <=? c) && (c <=? 13)
   || (28 <=? c) && (c <=? 32)
   || (c =? 133) || (c =? 160) || (c =? 5760)
   || (8192 <=? c) && (c <=? 8202)
   || (c =? 8232) || (c =? 8233) || (c =? 8239) || (c =? 8287)
   || (c =? 12288))%N.

Fixpoint lstrip (s : str) : str :=
  match s with
  | c :: s' => if is_space c then lstrip s' else s
  | [] => []
  end.

Definition rstrip (s : str) : str := reverse (lstrip (reverse s)).

(** [s.strip()] *)
Definition strip (s : str) : str := rstrip (lstrip s).

Definition str_eqb (a b : str) : bool := bool_decide (a = b).

(** [is_missing(value)]: [value.strip() == ""] *)
Definition is_missing (value : str) : bool := str_eqb (strip value) (lit "").

(** ** Host builtins

    The float type and the two builtins the tool relies on are those of the
    Python runtime: [float(s)] on a string, true division of ints and the
    product of a float by an int. *)

Class Host := {
  float : Type;
  (** the literal [0.0] *)
  float_zero : float;
  (** [a / b] on ints, for a divisor other than zero *)
  int_truediv : Z -> Z -> float;
  (** [x * n] *)
  float_mul_int : float -> Z -> float;
  (** whether [float(s)] returns (otherwise it raises [ValueError]) *)
  float_parses : str -> bool
}.

(** ** Exceptions *)

Inductive exit_msg :=
| BadHead        (* "ERROR: --head must be >= 0" *)
| FileNotFound   (* "ERROR: file not found: {path}" *)
| NotAFile       (* "ERROR: not a file: {path}" *)
| NoHeader.      (* "ERROR: Could not read header row (no columns found)." *)

Inductive exn :=
| SystemExit (m : exit_msg)
| KeyError (k : str)
| ZeroDivisionError
| ValueError.

Inductive result (A : Type) :=
| Ok (a : A)
| Raise (e : exn).
Arguments Ok {A} a.
Arguments Raise {A} e.

#[global] Instance result_ret : MRet result := fun _ a => Ok a.
#[global] Instance result_bind : MBind result := fun _ _ f m =>
  match m with
  | Ok a => f a
  | Raise e => Raise e
  end.

(** [for x in xs: body], threading the variables the body assigns. *)
Fixpoint for_each {A S : Type} (body : A -> S -> result S) (xs : list A) (s : S)
  : result S :=
  match xs with
  | [] => Ok s
  | x :: xs' => s' ← body x s; for_each body xs' s'
  end.

(** [[f(x) for x in xs]] for an [f] that may raise. *)
Fixpoint map_result {A B : Type} (f : A -> result B) (xs : list A)
  : result (list B) :=
  match xs with
  | [] => Ok []
  | x :: xs' => y ← f x; ys ← map_result f xs'; Ok (y :: ys)
  end.

(** ** Dicts and row objects *)

(** The values [csv.DictReader] stores under a column name: a field of the
    line, or [None] (its [restval]) for a column the line is too short
    for. *)
Inductive value :=
| VNone
| VStr (s : str).

(** A row dict, restricted to its [str] keys. The entry the reader adds
    under the key [None] for the fields beyond the header is left out: the
    loop only looks up column names, which are strings. *)
Abbreviation Row := (gmap str value).

(** [d[k]] *)
Definition getitem {V : Type} (d : gmap str V) (k : str) : result V :=
  match d !! k with
  | Some v => Ok v
  | None => Raise (KeyError k)
  end.

(** [d.get(k, default)] *)
Definition dict_get {V : Type} (d : gmap str V) (k : str) (default : V) : V :=
  match d !! k with
  | Some v => v
  | None => default
  end.

(** [{c: v for c in columns}] *)
Definition dict_comp {V : Type} (columns : list str) (v : V) : gmap str V :=
  foldl (fun d c => <[c := v]> d) ∅ columns.

(** Row dicts are objects. The store maps each reference to the current
    content of its dict; [next] is the first reference not yet in use. *)
Definition loc := nat.

Record store := { next : loc; cell : loc -> Row }.

Definition empty_store : store := {| next := 0%nat; cell := fun _ => ∅ |}.

(** A new dict object with content [r]. *)
Definition alloc (σ : store) (r : Row) : loc * store :=
  (next σ,
   {| next := S (next σ);
      cell := fun l => if decide (l = next σ) then r else cell σ l |}).

Definition deref (σ : store) (l : loc) : Row := cell σ l.

(** [row[k] = v] on the object behind [l]. Nothing in the tool does this;
    it is what a caller holding the row could do. *)
Definition setitem (σ : store) (l : loc) (k : str) (v : value) : store :=
  {| next := next σ;
     cell := fun l' => if decide (l' = l) then <[k := v]> (cell σ l) else cell σ l' |}.

(** ** The program *)

(** The variables of [main] that the loop over the rows assigns. *)
Record locals := {
  row_count : Z;
  preview_rows : list loc;
  missing_counts : gmap str Z;
  numeric_possible : gmap str bool;
  non_missing_seen : gmap str Z
}.

(** What the summary prints for one column:
    [- {c}: type={col_type}, missing={miss} ({miss_pct:.1f}%)] *)
Record column_line {H : Host} := {
  col_name : str;
  col_type : str;
  miss : Z;
  miss_pct : float
}.

(** Everything [main] prints after the loop (the path apart). *)
Record report {H : Host} := {
  out_rows : Z;
  out_columns : list str;
  out_summary : list column_line;
  out_preview_len : Z;
  out_preview : list Row
}.

(** What the run finds outside the program: the parsed arguments, the two
    answers of the file system about the path, [reader.fieldnames] and the
    dicts the reader yields, in order. [fieldnames] is [None] when the file
    has no line at all, and the list of the first line's fields otherwise
    (the empty list for a blank first line). *)
Record input := {
  arg_head : Z;
  path_exists : bool;
  path_is_file : bool;
  fieldnames : option (list str);
  records : list Row
}.

(** Exceptions that the library calls of [main] can raise and that [main]
    does not catch: [OSError] and its subclasses from the file system,
    [TypeError] from [csv.DictReader] on a delimiter that is not a single
    character, [UnicodeDecodeError] and [csv.Error] from reading the file. *)
Inductive library_error :=
| OSError
| TypeError
| UnicodeDecodeError
| CsvError.

(** The library calls of [main] in the order it makes them, each with what
    it does: return (on the right) or raise (on the left). They are
    [path.exists()], [path.is_file()], [path.open(...)],
    [csv.DictReader(f, delimiter=...)], [reader.fieldnames] and the iteration
    over the reader, which yields the rows [env_rows] and then stops or
    raises. *)
Record environment := {
  env_exists : library_error + bool;
  env_is_file : library_error + bool;
  env_open : library_error + unit;
  env_reader : library_error + unit;
  env_fieldnames : library_error + option (list str);
  env_rows : list Row;
  env_rows_end : library_error + unit
}.

Section Program.
Context {H : Host}.

(** [float(value)] *)
Definition py_float (value : str) : result unit :=
  if float_parses value then Ok tt else Raise ValueError.

(** [is_number(value)]: [True] when [float(value)] returns, [False] when it
    raises [ValueError]. *)
Definition is_number (value : str) : bool :=
  match py_float value with
  | Ok _ => true
  | Raise _ => false
  end.

(** [a / b] on ints. *)
Definition truediv (a b : Z) : result float :=
  if b =? 0 then Raise ZeroDivisionError else Ok (int_truediv a b).

(** The field of column [c] as the loop reads it from the row dict [d]:
    [val = row.get(c, "")], then [val = "" if val is None else str(val)]. *)
Definition field (d : Row) (c : str) : str :=
  let val := dict_get d c (VStr (lit "")) in
  match val with
  | VNone => lit ""
  | VStr s => s
  end.

(** The body of [for c in columns] inside the loop over the rows. *)
Definition column_body (σ : store) (row : loc) (c : str) (st : locals)
  : result locals :=
  let val := field (deref σ row) c in
  if is_missing val then
    n ← getitem (missing_counts st) c;
    Ok {| row_count := row_count st;
          preview_rows := preview_rows st;
          missing_counts := <[c := n + 1]> (missing_counts st);
          numeric_possible := numeric_possible st;
          non_missing_seen := non_missing_seen st |}
  else
    n ← getitem (non_missing_seen st) c;
    let seen := <[c := n + 1]> (non_missing_seen st) in
    b ← getitem (numeric_possible st) c;
    Ok {| row_count := row_count st;
          preview_rows := preview_rows st;
          missing_counts := missing_counts st;
          numeric_possible :=
            if b && negb (is_number (strip val))
            then <[c := false]> (numeric_possible st)
            else numeric_possible st;
          non_missing_seen := seen |}.

(** The body of [for row in reader], for the row object [row]. *)
Definition row_body (head : Z) (columns : list str) (σ : store) (row : loc)
    (st : locals) : result locals :=
  let count := row_count st + 1 in
  let preview :=
    if Z.of_nat (length (preview_rows st)) <? head
    then preview_rows st ++ [row]
    else preview_rows st in
  for_each (column_body σ row) columns
    {| row_count := count;
       preview_rows := preview;
       missing_counts := missing_counts st;
       numeric_possible := numeric_possible st;
       non_missing_seen := non_missing_seen st |}.

(** One iteration of [for row in reader]: the reader builds a new dict for
    the record, then the body runs on it. *)
Definition reader_step (head : Z) (columns : list str) (r : Row)
    (s : store * locals) : result (store * locals) :=
  let '(row, σ) := alloc s.1 r in
  st ← row_body head columns σ row s.2;
  Ok (σ, st).

(** The variables as they are when the loop starts. *)
Definition init (columns : list str) : locals :=
  {| row_count := 0;
     preview_rows := [];
     missing_counts := dict_comp columns 0;
     numeric_possible := dict_comp columns true;
     non_missing_seen := dict_comp columns 0 |}.

(** [for row in reader: ...] *)
Definition ingest_all (head : Z) (columns : list str) (rs : list Row)
    (s : store * locals) : result (store * locals) :=
  for_each (reader_step head columns) rs s.

(** The loop started as [main] starts it. *)
Definition run (head : Z) (columns : list str) (rs : list Row)
  : result (store * locals) :=
  ingest_all head columns rs (empty_store, init columns).

(** [(miss / row_count * 100) if row_count > 0 else 0.0] *)
Definition missing_pct (miss count : Z) : result float :=
  if count >? 0
  then q ← truediv miss count; Ok (float_mul_int q 100)
  else Ok float_zero.

(** The type label of column [c]:
    ["empty"] if [non_missing_seen[c] == 0], otherwise ["numeric"] if
    [numeric_possible[c]] else ["text"]. *)
Definition column_type (st : locals) (c : str) : result str :=
  seen ← getitem (non_missing_seen st) c;
  if seen =? 0 then Ok (lit "empty")
  else
    match getitem (numeric_possible st) c with
    | Ok b => Ok (if b then lit "numeric" else lit "text")
    | Raise e => Raise e
    end.

(** The body of [for c in columns] in the summary. *)
Definition summary_line (st : locals) (c : str) : result column_line :=
  m ← getitem (missing_counts st) c;
  pct ← missing_pct m (row_count st);
  ty ← column_type st c;
  Ok {| col_name := c; col_type := ty; miss := m; miss_pct := pct |}.

(** The report printed from the final variables. *)
Definition finalize (head : Z) (columns : list str) (s : store * locals)
  : result report :=
  lines ← map_result (summary_line s.2) columns;
  Ok {| out_rows := row_count s.2;
        out_columns := columns;
        out_summary := lines;
        out_preview_len := Z.min head (Z.of_nat (length (preview_rows s.2)));
        out_preview := map (deref s.1) (preview_rows s.2) |}.

(** [main] *)
Definition main (inp : input) : result report :=
  if arg_head inp <? 0 then Raise (SystemExit BadHead)
  else if negb (path_exists inp) then Raise (SystemExit FileNotFound)
  else if negb (path_is_file inp) then Raise (SystemExit NotAFile)
  else
    match fieldnames inp with
    | None => Raise (SystemExit NoHeader)
    | Some columns =>
        s ← run (arg_head inp) columns (records inp);
        finalize (arg_head inp) columns s
    end.

(** [main] with the library calls that may raise. On the left, an exception
    of a library call, which leaves [main] uncaught; on the right, what
    [main] itself does: exit, or print the report. *)
Definition main_env (head : Z) (env : environment)
  : library_error + result report :=
  if head <? 0 then inr (Raise (SystemExit BadHead))
  else
    match env_exists env with
    | inl e => inl e
    | inr false => inr (Raise (SystemExit FileNotFound))
    | inr true =>
        match env_is_file env with
        | inl e => inl e
        | inr false => inr (Raise (SystemExit NotAFile))
        | inr true =>
            match env_open env, env_reader env with
            | inl e, _ => inl e
            | inr _, inl e => inl e
            | inr _, inr _ =>
                match env_fieldnames env with
                | inl e => inl e
                | inr None => inr (Raise (SystemExit NoHeader))
                | inr (Some columns) =>
                    match run head columns (env_rows env) with
                    | Raise e => inr (Raise e)
                    | Ok s =>
                        match env_rows_end env with
                        | inl e => inl e
                        | inr _ => inr (finalize head columns s)
                        end
                    end
                end
            end
        end
    end.

End Program.

(** ** A host to run the program on

    IEEE doubles for [float], and the ASCII part of the grammar of
    [float(s)]: an optional sign, then [inf], [infinity] or [nan] in any
    case, or a decimal number with an optional exponent, digits possibly
    grouped by single underscores; surrounding whitespace is ignored. The
    conversion of an int is exact up to [2^53], far beyond the counts of the
    examples below. *)
Module Sample.

Definition float_of_int (z : Z) : PrimFloat.float :=
  if z <? 0
  then PrimFloat.opp (PrimFloat.of_uint63 (Uint63.of_Z (- z)))
  else PrimFloat.of_uint63 (Uint63.of_Z z).

Definition is_digit (c : char) : bool := ((48 <=? c) && (c <=? 57))%N.

Definition lower (c : char) : char :=
  (if (65 <=? c) && (c <=? 90) then c + 32 else c)%N.

(** The rest of [s] after [(["_"] digit)*]. *)
Fixpoint more_digits (s : str) : str :=
  match s with
  | c :: s' =>
      if is_digit c then more_digits s'
      else if (c =? 95)%N then
        match s' with
        | d :: s'' => if is_digit d then more_digits s'' else s
        | [] => s
        end
      else s
  | [] => []
  end.

(** The rest of [s] after a digit part, if [s] starts with one. *)
Definition digitpart (s : str) : option str :=
  match s with
  | c :: s' => if is_digit c then Some (more_digits s') else None
  | [] => None
  end.

Definition opt_sign (s : str) : str :=
  match s with
  | c :: s' => if (c =? 43)%N || (c =? 45)%N then s' else s
  | [] => []
  end.

Definition number (s : str) : option str :=
  match digitpart s with
  | Some (46%N :: r) => Some (default r (digitpart r))
  | Some r => Some r
  | None =>
      match s with
      | 46%N :: r => digitpart r
      | _ => None
      end
  end.

Definition exponent (s : str) : option str :=
  match s with
  | c :: s' =>
      if (c =? 101)%N || (c =? 69)%N then digitpart (opt_sign s') else Some s
  | [] => Some []
  end.

Definition parses (s : str) : bool :=
  let body := opt_sign (strip s) in
  let word := map lower body in
  str_eqb word (lit "inf") || str_eqb word (lit "infinity")
  || str_eqb word (lit "nan")
  || match number body ≫= exponent with
     | Some [] => true
     | _ => false
     end.

#[local] Instance host : Host := {|
  float := PrimFloat.float;
  float_zero := 0%float;
  int_truediv a b := PrimFloat.div (float_of_int a) (float_of_int b);
  float_mul_int x n := PrimFloat.mul x (float_of_int n);
  float_parses := parses
|}.

(** The dict the reader yields for a line with the given fields, under
    names that differ from one another. *)
Definition row (fields : list (string * string)) : Row :=
  list_to_map (map (fun kv => (lit kv.1, VStr (lit kv.2))) fields).

Definition file (head : Z) (header : list string)
    (rows : list (list (string * string))) : input :=
  {| arg_head := head; path_exists := true; path_is_file := true;
     fieldnames := Some (map lit header); records := map row rows |}.

(** The header and the two rows of a small file:
    [a,b] / [1,] / [2.5,x]. *)
Definition columns_ab : list str := [lit "a"; lit "b"].

Definition rows_ab : list Row :=
  [row [("a", "1"); ("b", "")]; row [("a", "2.5"); ("b", "x")]]%string.

End Sample.

(** * password_gen: the password generator of
      [day02-mirco-clis/tool2_password_gen.py]

    Random choices come from a source that hands out numbers in order; a
    draw below [n] is the next number modulo [n], so that every sequence of
    draws is the behaviour of some source. *)
Module PasswordGen.

(** [string.ascii_lowercase], [string.ascii_uppercase], [string.digits] and
    the symbols of [generate_password]. *)
Definition lowers : str := lit "abcdefghijklmnopqrstuvwxyz".
Definition uppers : str := lit "ABCDEFGHIJKLMNOPQRSTUVWXYZ".
Definition digits : str := lit "0123456789".
Definition symbols : str := lit "!@#$%^&*()-_=+[]{};:,.?/".

Inductive value_msg :=
| TooShort (min_length : Z)  (* "Password length must be at least {min_length}" *)
| BadBound.                  (* "Upper bound must be positive." *)

Inductive exit_msg :=
| BadLength                  (* "ERROR: --length must be a positive integer" *)
| BadCount                   (* "ERROR: --count must be a positive integer" *)
| Error (m : value_msg).     (* "ERROR: {e}" *)

Inductive error :=
| ValueError (m : value_msg)
| IndexError
| SystemExit (m : exit_msg).

(** The system's random source: the numbers it will hand out, in order. *)
Definition rng := nat -> nat.

Inductive outcome (A : Type) :=
| Returns (a : A) (g : rng)
| Raises (e : error).
Arguments Returns {A} a g.
Arguments Raises {A} e.

(** A computation that draws random numbers and may raise. *)
Definition M (A : Type) : Type := rng -> outcome A.

#[global] Instance M_ret : MRet M := fun _ a g => Returns a g.
#[global] Instance M_bind : MBind M := fun _ _ f m g =>
  match m g with
  | Returns a g' => f a g'
  | Raises e => Raises e
  end.

Definition raise {A : Type} (e : error) : M A := fun _ => Raises e.

(** [secrets.randbelow(n)]: a number below [n], taken from the source. *)
Definition randbelow (n : nat) : M nat := fun g =>
  if (n =? 0)%nat then Raises (ValueError BadBound)
  else Returns (g 0%nat mod n)%nat (fun i => g (S i)).

(** [secrets.choice(seq)] *)
Definition choice (seq : str) : M char :=
  match seq with
  | [] => raise IndexError
  | _ =>
      i ← randbelow (length seq);
      match seq !! i with
      | Some c => mret c
      | None => raise IndexError
      end
  end.

(** [x[i], x[j] = x[j], x[i]] *)
Definition swap (x : list char) (i j : nat) : M (list char) :=
  match x !! j, x !! i with
  | Some xj, Some xi => mret (<[j := xi]> (<[i := xj]> x))
  | _, _ => raise IndexError
  end.

(** The passes of [for i in reversed(range(1, len(x)))] from [i] down. *)
Fixpoint shuffle_from (i : nat) (x : list char) : M (list char) :=
  match i with
  | O => mret x
  | S i' =>
      j ← randbelow (i + 1);
      x' ← swap x i j;
      shuffle_from i' x'
  end.

(** [secrets.SystemRandom().shuffle(x)] *)
Definition shuffle (x : list char) : M (list char) :=
  shuffle_from (length x - 1) x.

(** [while len(chars) < length: chars.append(secrets.choice(pool))] *)
Equations? fill (len : Z) (pool : str) (chars : list char) (g : rng)
  : outcome (list char)
  by wf (Z.to_nat (len - Z.of_nat (length chars))) lt :=
  fill len pool chars g with Z_lt_dec (Z.of_nat (length chars)) len := {
    | left _ with choice pool g := {
        | Returns c g' := fill len pool (chars ++ [c]) g';
        | Raises e := Raises e };
    | right _ := Returns chars g }.
Proof. rewrite length_app. simpl. lia. Qed.

(** [generate_password(length, use_symbols)] *)
Definition generate_password (length : Z) (use_symbols : bool) : M str :=
  let min_length := if use_symbols then 4 else 3 in
  if length <? min_length then raise (ValueError (TooShort min_length))
  else
    c1 ← choice lowers;
    c2 ← choice uppers;
    c3 ← choice digits;
    chars ← (if use_symbols
             then c4 ← choice symbols; mret [c1; c2; c3; c4]
             else mret [c1; c2; c3]);
    let pool := lowers ++ uppers ++ digits in
    let pool := if use_symbols then pool ++ symbols else pool in
    chars ← fill length pool chars;
    chars ← shuffle chars;
    mret chars.

(** The passes of [for _ in range(count)] that are left, with what has been
    printed so far. *)
Fixpoint print_passwords (passes : nat) (length : Z) (use_symbols : bool)
    (out : list str) (g : rng) : list str * outcome unit :=
  match passes with
  | O => (out, Returns tt g)
  | S passes' =>
      match generate_password length use_symbols g with
      | Returns pw g' =>
          print_passwords passes' length use_symbols (out ++ [pw]) g'
      | Raises e => (out, Raises e)
      end
  end.

(** The parsed arguments: [--length], [--count] and [--no-symbols]. *)
Record args := { length : Z; count : Z; no_symbols : bool }.

(** [main]: the lines printed and how the run ends. *)
Definition main (a : args) (g : rng) : list str * outcome unit :=
  let use_symbols := negb (no_symbols a) in
  if length a <=? 0 then ([], Raises (SystemExit BadLength))
  else if count a <=? 0 then ([], Raises (SystemExit BadCount))
  else
    match print_passwords (Z.to_nat (count a)) (length a) use_symbols [] g with
    | (out, Raises (ValueError m)) => (out, Raises (SystemExit (Error m)))
    | r => r
    end.

End PasswordGen.

(** The characters the filling loop draws from. *)
Definition pool_of (use_symbols : bool) : str :=
  if use_symbols
  then (PasswordGen.lowers ++ PasswordGen.uppers ++ PasswordGen.digits)
       ++ PasswordGen.symbols
  else PasswordGen.lowers ++ PasswordGen.uppers ++ PasswordGen.digits.

(** * file_stats: the line, word and character counter of
      [day02-mirco-clis/tool1_file_stats.py] *)
Module FileStats.

(** [s.split()]: the maximal runs of characters that are not whitespace, in
    order; [word] is the run being read. *)
Fixpoint split_from (word : str) (s : str) : list str :=
  match s with
  | [] =>
      match word with
      | [] => []
      | _ => [word]
      end
  | c :: s' =>
      if is_space c
      then match word with
           | [] => split_from [] s'
           | _ => word :: split_from [] s'
           end
      else split_from (word ++ [c]) s'
  end.

Definition split (s : str) : list str := split_from [] s.

(** Exceptions of the library calls of the loop: the two it catches, and
    any other one, such as the [OSError] of [p.exists()] on an overlong
    name. *)
Inductive exception :=
| PermissionError
| UnicodeDecodeError
| OtherError.

(** What the library calls on one path do, in the order the loop makes them,
    each returning (on the right) or raising (on the left): [p.exists()],
    [p.is_file()], [p.open(...)], and the iteration over the open file,
    which yields the lines [content] and then ends or raises. *)
Record file := {
  exists_ : exception + bool;
  is_file : exception + bool;
  opens : exception + unit;
  content : list str;
  reading_ends : exception + unit
}.

(** The lines the tool prints. *)
Inductive message :=
| FileNotFound (p : str)          (* "File not found: {p}" *)
| NotAFile (p : str)              (* "Not a file: {p}" *)
| PermissionDenied (p : str)      (* "Permission denied: {p}" *)
| NotUtf8 (p : str)               (* "Could not decode (not UTF-8): {p}" *)
| Counts (p : str) (lines words chars : Z)
                                  (* "{p}: {lines} lines, {words} words, {chars} characters" *)
| Total (lines words chars : Z).  (* "TOTAL: ..." *)

(** The three counters of one file. *)
Record counts := { lines : Z; words : Z; chars : Z }.

(** The body of [for line in f]. *)
Definition line_body (line : str) (c : counts) : counts :=
  {| lines := lines c + 1;
     words := words c + Z.of_nat (length (split line));
     chars := chars c + Z.of_nat (length line) |}.

(** [for line in f] over the lines the iteration yields. *)
Definition for_lines (ls : list str) (c : counts) : counts :=
  foldl (fun c line => line_body line c) c ls.

(** The body of the [try] block: open the file and count its lines. *)
Definition count_file (f : file) : exception + counts :=
  match opens f with
  | inl e => inl e
  | inr _ =>
      let c := for_lines (content f) {| lines := 0; words := 0; chars := 0 |} in
      match reading_ends f with
      | inl e => inl e
      | inr _ => inr c
      end
  end.

(** The variables of [main] that the loop over the files assigns, and what
    has been printed. *)
Record locals := {
  out : list message;
  total_lines : Z;
  total_words : Z;
  total_chars : Z;
  processed : Z
}.

Definition print (m : message) (st : locals) : locals :=
  {| out := out st ++ [m];
     total_lines := total_lines st;
     total_words := total_words st;
     total_chars := total_chars st;
     processed := processed st |}.

(** How a pass of the loop ends: it goes on to the next argument, or an
    exception that nothing catches ends the run. *)
Inductive step :=
| Continue (st : locals)
| Abort (st : locals) (e : exception).

(** The body of [for file_arg in args.files], for the path [p] and the
    library calls on it. The two checks stand outside the [try]; the [try]
    catches [PermissionError] and [UnicodeDecodeError] only. *)
Definition file_body (arg : str * file) (st : locals) : step :=
  let '(p, f) := arg in
  match exists_ f with
  | inl e => Abort st e
  | inr false => Continue (print (FileNotFound p) st)
  | inr true =>
      match is_file f with
      | inl e => Abort st e
      | inr false => Continue (print (NotAFile p) st)
      | inr true =>
          match count_file f with
          | inl PermissionError => Continue (print (PermissionDenied p) st)
          | inl UnicodeDecodeError => Continue (print (NotUtf8 p) st)
          | inl e => Abort st e
          | inr c =>
              Continue
                {| out := out st ++ [Counts p (lines c) (words c) (chars c)];
                   total_lines := total_lines st + lines c;
                   total_words := total_words st + words c;
                   total_chars := total_chars st + chars c;
                   processed := processed st + 1 |}
          end
      end
  end.

(** [for file_arg in args.files] *)
Fixpoint for_files (files : list (str * file)) (st : locals) : step :=
  match files with
  | [] => Continue st
  | arg :: files' =>
      match file_body arg st with
      | Continue st' => for_files files' st'
      | Abort st' e => Abort st' e
      end
  end.

(** [main], for the files named on the command line and [--total]: the
    lines printed, and the exception that ended the run, if one did. *)
Definition main (files : list (str * file)) (total : bool)
  : list message * option exception :=
  match for_files files
          {| out := []; total_lines := 0; total_words := 0;
             total_chars := 0; processed := 0 |} with
  | Continue st =>
      (if total && (processed st >? 0)
       then out st ++ [Total (total_lines st) (total_words st) (total_chars st)]
       else out st,
       None)
  | Abort st e => (out st, Some e)
  end.

End FileStats.

(** Helpers for the statements about the file counter. *)

(** The per-file line the tool prints for an argument. *)
Definition is_counts (m : FileStats.message) : bool :=
  match m with
  | FileStats.Counts _ _ _ _ => true
  | _ => false
  end.

(** The path a line names. *)
Definition path_of (m : FileStats.message) : option str :=
  match m with
  | FileStats.FileNotFound p | FileStats.NotAFile p
  | FileStats.PermissionDenied p | FileStats.NotUtf8 p
  | FileStats.Counts p _ _ _ => Some p
  | FileStats.Total _ _ _ => None
  end.

(** The sums of the three columns of the per-file lines. *)
Fixpoint column_sums (msgs : list FileStats.message) : Z * Z * Z :=
  match msgs with
  | [] => (0, 0, 0)
  | FileStats.Counts _ l w c :: msgs' =>
      let '(L, W, C) := column_sums msgs' in (l + L, w + W, c + C)
  | _ :: msgs' => column_sums msgs'
  end.

(** The state in which the loop stops. *)
Definition last_state (s : FileStats.step) : FileStats.locals :=
  match s with
  | FileStats.Continue st => st
  | FileStats.Abort st _ => st
  end.

(** Whether [e] passes the two [except] clauses. *)
Definition uncaught (e : FileStats.exception) : option FileStats.exception :=
  match e with
  | FileStats.PermissionError | FileStats.UnicodeDecodeError => None
  | _ => Some e
  end.

(** The exception with which the calls on a path end the run, if they do:
    one raised by a check, or one raised in the [try] that is neither
    [PermissionError] nor [UnicodeDecodeError]. *)
Definition aborts (f : FileStats.file) : option FileStats.exception :=
  match FileStats.exists_ f with
  | inl e => Some e
  | inr false => None
  | inr true =>
      match FileStats.is_file f with
      | inl e => Some e
      | inr false => None
      | inr true =>
          match FileStats.opens f, FileStats.reading_ends f with
          | inl e, _ => uncaught e
          | inr _, inl e => uncaught e
          | inr _, inr _ => None
          end
      end
  end.

(** A path that exists, is a file, opens and is read to its end. *)
Definition readable (f : FileStats.file) : bool :=
  match FileStats.exists_ f, FileStats.is_file f,
        FileStats.opens f, FileStats.reading_ends f with
  | inr true, inr true, inr _, inr _ => true
  | _, _, _, _ => false
  end.


(** Some paths: a text file with the given lines, nothing at all, a
    directory, a file that may not be opened, a file that stops decoding
    after the given lines, and a path the file system refuses to look
    at. *)
Definition text (ls : list str) : FileStats.file :=
  {| FileStats.exists_ := inr true; FileStats.is_file := inr true;
     FileStats.opens := inr tt; FileStats.content := ls;
     FileStats.reading_ends := inr tt |}.

Definition missing : FileStats.file :=
  {| FileStats.exists_ := inr false; FileStats.is_file := inr false;
     FileStats.opens := inr tt; FileStats.content := [];
     FileStats.reading_ends := inr tt |}.

Definition directory : FileStats.file :=
  {| FileStats.exists_ := inr true; FileStats.is_file := inr false;
     FileStats.opens := inr tt; FileStats.content := [];
     FileStats.reading_ends := inr tt |}.

Definition denied : FileStats.file :=
  {| FileStats.exists_ := inr true; FileStats.is_file := inr true;
     FileStats.opens := inl FileStats.PermissionError; FileStats.content := [];
     FileStats.reading_ends := inr tt |}.

Definition undecodable (ls : list str) : FileStats.file :=
  {| FileStats.exists_ := inr true; FileStats.is_file := inr true;
     FileStats.opens := inr tt; FileStats.content := ls;
     FileStats.reading_ends := inl FileStats.UnicodeDecodeError |}.

Definition refused (e : FileStats.exception) : FileStats.file :=
  {| FileStats.exists_ := inl e; FileStats.is_file := inr false;
     FileStats.opens := inr tt; FileStats.content := [];
     FileStats.reading_ends := inr tt |}.

(** ** Counting helpers for the statements *)

(** How many times [k] occurs in the header. *)
Fixpoint occ (k : str) (cs : list str) : Z :=
  match cs with
  | [] => 0
  | c :: cs' => (if decide (c = k) then 1 else 0) + occ k cs'
  end.

(** How many of the rows satisfy [p]. *)
Fixpoint tally (p : Row -> bool) (rs : list Row) : Z :=
  match rs with
  | [] => 0
  | r :: rs' => (if p r then 1 else 0) + tally p rs'
  end.

(** The three variables that hold a key for [c]. *)
Definition keyed (st : locals) (c : str) : Prop :=
  is_Some (missing_counts st !! c)
  ∧ is_Some (numeric_possible st !! c)
  ∧ is_Some (non_missing_seen st !! c).

(** ** Closed forms of the two loops *)

Section Effects.
Context {H : Host}.

(** The effect on the three dicts of reading the fields [v] of one row, [w k]
    times for column [k]: the matching counter of [k] grows by [w k], and the
    flag of [k] goes down if the field is neither missing nor a number and
    was read at all. The other variables stay as they are. *)
Definition column_effect (v : str -> str) (w : str -> Z) (st st' : locals)
  : Prop :=
  row_count st' = row_count st
  ∧ preview_rows st' = preview_rows st
  ∧ ∀ k,
      missing_counts st' !! k
      = (fun x => x + (if is_missing (v k) then w k else 0))
          <$> missing_counts st !! k
      ∧ non_missing_seen st' !! k
        = (fun x => x + (if is_missing (v k) then 0 else w k))
            <$> non_missing_seen st !! k
      ∧ numeric_possible st' !! k
        = (fun b => b && (is_missing (v k) || is_number (strip (v k))
                          || (w k =? 0)))
            <$> numeric_possible st !! k.

(** The effect of reading the records [rs], in closed form: one new row
    object per record, none of the earlier ones written to; the row count and
    the counters grow by what the records hold; the preview takes references
    to the first new objects while it is short of [head]. *)
Definition rows_effect (head : Z) (columns : list str) (rs : list Row)
    (s s' : store * locals) : Prop :=
  row_count s'.2 = row_count s.2 + Z.of_nat (length rs)
  ∧ preview_rows s'.2
    = preview_rows s.2
      ++ take (Z.to_nat (head - Z.of_nat (length (preview_rows s.2))))
           (seq (next s.1) (length rs))
  ∧ next s'.1 = (next s.1 + length rs)%nat
  ∧ (∀ l, (l < next s.1)%nat → deref s'.1 l = deref s.1 l)
  ∧ (∀ i r, rs !! i = Some r → deref s'.1 (next s.1 + i)%nat = r)
  ∧ ∀ k,
      missing_counts s'.2 !! k
      = (fun x => x + occ k columns
                      * tally (fun r => is_missing (field r k)) rs)
          <$> missing_counts s.2 !! k
      ∧ non_missing_seen s'.2 !! k
        = (fun x => x + occ k columns
                        * tally (fun r => negb (is_missing (field r k))) rs)
            <$> non_missing_seen s.2 !! k
      ∧ numeric_possible s'.2 !! k
        = (fun b => b && (forallb (fun r => is_missing (field r k)
                                            || is_number (strip (field r k))) rs
                          || (occ k columns =? 0)))
            <$> numeric_possible s.2 !! k.

End Effects.

(** The statistics of a run: everything it accumulates but the preview. *)
Definition stats (st : locals) : Z * gmap str Z * gmap str Z * gmap str bool :=
  (row_count st, missing_counts st, non_missing_seen st, numeric_possible st).

(** The host [H] with another answer to whether [float(s)] returns. *)
Definition with_parser (H : Host) (p : str -> bool) : Host :=
  {| float := @float H;
     float_zero := @float_zero H;
     int_truediv := @int_truediv H;
     float_mul_int := @float_mul_int H;
     float_parses := p |}.

(** * Properties *)

(** ** Whitespace and [is_missing] *)

Lemma lit_empty : lit "" = [].
Proof. reflexivity. Qed.

Lemma lstrip_nil_iff (s : str) :
  lstrip s = [] ↔ Forall (fun c => is_space c = true) s.
Proof.
  induction s as [|c s IH]; simpl.
  - split; [constructor | reflexivity].
  - destruct (is_space c) eqn:E.
    + rewrite IH. split.
      * intros Hs. constructor; assumption.
      * intros Hs. inversion Hs; assumption.
    + split; [discriminate |].
      intros Hs. inversion Hs; congruence.
Qed.

(** What is left of [lstrip] does not start with whitespace. *)
Lemma lstrip_head (s : str) :
  match lstrip s with
  | [] => True
  | c :: _ => is_space c = false
  end.
Proof.
  induction s as [|c s IH]; simpl; [exact I |].
  destruct (is_space c) eqn:E; [exact IH | exact E].
Qed.

Lemma lstrip_suffix (s : str) :
  ∃ p, s = p ++ lstrip s ∧ Forall (fun c => is_space c = true) p.
Proof.
  induction s as [|c s (p & Hp & Hsp)]; simpl.
  - exists []. split; [reflexivity | constructor].
  - destruct (is_space c) eqn:E.
    + exists (c :: p). split; [simpl; congruence | constructor; assumption].
    + exists []. split; [reflexivity | constructor].
Qed.

Lemma strip_nil_iff (s : str) :
  strip s = [] ↔ Forall (fun c => is_space c = true) s.
Proof.
  unfold strip, rstrip. split.
  - intros Hs.
    assert (Hr : lstrip (reverse (lstrip s)) = []).
    { destruct (lstrip (reverse (lstrip s))); [reflexivity |].
      apply (f_equal (@length _)) in Hs.
      rewrite length_reverse in Hs. discriminate. }
    apply lstrip_nil_iff in Hr. rewrite Forall_reverse in Hr.
    apply lstrip_nil_iff.
    pose proof (lstrip_head s) as Hh.
    destruct (lstrip s) as [|c t]; [reflexivity |].
    inversion Hr; congruence.
  - intros Hs. apply lstrip_nil_iff in Hs. rewrite Hs. reflexivity.
Qed.

(** The stripped string sits in the middle of the original one, between two
    runs of whitespace, and has no whitespace at either end. *)
Lemma strip_middle (s : str) :
  ∃ p q, s = p ++ strip s ++ q
    ∧ Forall (fun c => is_space c = true) p
    ∧ Forall (fun c => is_space c = true) q
    ∧ (∀ c, head (strip s) = Some c → is_space c = false)
    ∧ (∀ c, last (strip s) = Some c → is_space c = false).
Proof.
  destruct (lstrip_suffix s) as (p & Hp & Hsp).
  destruct (lstrip_suffix (reverse (lstrip s))) as (q & Hq & Hsq).
  set (t := lstrip (reverse (lstrip s))) in *.
  assert (Ht : lstrip s = reverse t ++ reverse q).
  { rewrite <- reverse_app, <- Hq. symmetry. apply reverse_involutive. }
  exists p, (reverse q). unfold strip, rstrip. fold t.
  split; [| split; [assumption | split; [rewrite Forall_reverse; assumption | split]]].
  - rewrite <- Ht. exact Hp.
  - intros c Hc.
    pose proof (lstrip_head s) as Hh. rewrite Ht in Hh.
    destruct (reverse t) as [|d u]; [discriminate |].
    simpl in Hc, Hh. congruence.
  - intros c Hc. rewrite last_reverse in Hc.
    pose proof (lstrip_head (reverse (lstrip s))) as Hh. fold t in Hh.
    destruct t; simpl in Hc; congruence.
Qed.

(** C6. [is_missing(value)] is true exactly when [value.strip()] is the empty
    string, which is exactly when every character of [value] is whitespace:
    a whitespace-only string (the empty one included) is missing. *)
Theorem is_missing_iff_blank (value : str) :
  (is_missing value = true ↔ strip value = lit "")
  ∧ (is_missing value = true ↔ Forall (fun c => is_space c = true) value).
Proof.
  assert (Hm : is_missing value = true ↔ strip value = lit "").
  { unfold is_missing, str_eqb. apply bool_decide_eq_true. }
  split; [exact Hm |].
  rewrite Hm, lit_empty. apply strip_nil_iff.
Qed.

(** ** Dicts built by comprehension *)

Lemma dict_comp_lookup {V : Type} (columns : list str) (v : V) (k : str) :
  dict_comp columns v !! k = if decide (k ∈ columns) then Some v else None.
Proof.
  unfold dict_comp.
  assert (G : ∀ d : gmap str V,
    foldl (fun d c => <[c := v]> d) d columns !! k
    = if decide (k ∈ columns) then Some v else d !! k).
  { induction columns as [|c cs IH]; intros d.
    - destruct (decide (k ∈ [])) as [Hin|_]; [| reflexivity].
      apply elem_of_nil in Hin. contradiction.
    - simpl. rewrite IH.
      destruct (decide (k ∈ cs)) as [Hin|Hnin];
        destruct (decide (k ∈ c :: cs)) as [Hin'|Hnin']; try reflexivity.
      + exfalso. apply Hnin'. apply list_elem_of_further. exact Hin.
      + apply elem_of_cons in Hin'. destruct Hin' as [->|Hin']; [| contradiction].
        apply lookup_insert_eq.
      + apply lookup_insert_ne. intros ->. apply Hnin'. apply list_elem_of_here. }
  rewrite G. destruct (decide (k ∈ columns)); [reflexivity | apply lookup_empty].
Qed.

Lemma occ_nonneg (k : str) (cs : list str) : 0 <= occ k cs.
Proof. induction cs as [|c cs IH]; simpl; [lia |]. destruct (decide (c = k)); lia. Qed.

Lemma occ_zero_iff (k : str) (cs : list str) : occ k cs = 0 ↔ k ∉ cs.
Proof.
  induction cs as [|c cs IH]; simpl.
  - split; [intros _; apply not_elem_of_nil | reflexivity].
  - pose proof (occ_nonneg k cs) as Hn. rewrite not_elem_of_cons.
    destruct (decide (c = k)) as [->|Hne].
    + split; [lia | intros [Hk _]; congruence].
    + rewrite Z.add_0_l, IH. split; [intros Hk; split; [congruence | exact Hk] | tauto].
Qed.

Lemma occ_NoDup (k : str) (cs : list str) : NoDup cs → k ∈ cs → occ k cs = 1.
Proof.
  induction 1 as [|c cs Hnin Hnd IH]; intros Hin.
  - apply elem_of_nil in Hin. contradiction.
  - simpl. destruct (decide (c = k)) as [->|Hne].
    + apply occ_zero_iff in Hnin. lia.
    + apply elem_of_cons in Hin. destruct Hin as [->|Hin]; [congruence |].
      rewrite IH by exact Hin. lia.
Qed.


Lemma tally_split (p : Row -> bool) (rs : list Row) :
  tally p rs + tally (fun r => negb (p r)) rs = Z.of_nat (length rs).
Proof.
  induction rs as [|r rs IH]; simpl; [reflexivity |].
  destruct (p r); simpl; lia.
Qed.


(** ** The loop over the columns *)

Section Loops.
Context {H : Host}.

Lemma column_effect_keyed v w st st' k :
  column_effect v w st st' → keyed st k → keyed st' k.
Proof.
  intros (_ & _ & He) (Hm & Hp & Hs). destruct (He k) as (E1 & E2 & E3).
  unfold keyed. rewrite E1, E2, E3.
  repeat split; apply fmap_is_Some; assumption.
Qed.

Lemma column_effect_refl v st : column_effect v (fun _ => 0) st st.
Proof.
  repeat split.
  - destruct (missing_counts st !! k) as [x|]; simpl; [| reflexivity].
    f_equal. destruct (is_missing (v k)); lia.
  - destruct (non_missing_seen st !! k) as [x|]; simpl; [| reflexivity].
    f_equal. destruct (is_missing (v k)); lia.
  - destruct (numeric_possible st !! k) as [b|]; simpl; [| reflexivity].
    f_equal. rewrite orb_true_r, andb_true_r. reflexivity.
Qed.

Lemma column_effect_trans v w1 w2 st0 st1 st2 :
  (∀ k, 0 <= w1 k) → (∀ k, 0 <= w2 k) →
  column_effect v w1 st0 st1 → column_effect v w2 st1 st2 →
  column_effect v (fun k => w1 k + w2 k) st0 st2.
Proof.
  intros H1 H2 (Hc1 & Hv1 & He1) (Hc2 & Hv2 & He2).
  split; [congruence | split; [congruence |]]. intros k.
  destruct (He1 k) as (A1 & A2 & A3), (He2 k) as (B1 & B2 & B3).
  specialize (H1 k). specialize (H2 k).
  rewrite B1, B2, B3, A1, A2, A3. clear -H1 H2.
  repeat split.
  - destruct (missing_counts st0 !! k) as [x|]; simpl; [| reflexivity].
    f_equal. destruct (is_missing (v k)); lia.
  - destruct (non_missing_seen st0 !! k) as [x|]; simpl; [| reflexivity].
    f_equal. destruct (is_missing (v k)); lia.
  - destruct (numeric_possible st0 !! k) as [b|]; simpl; [| reflexivity].
    f_equal.
    destruct b, (is_missing (v k)), (is_number (strip (v k))); simpl;
      try reflexivity.
    destruct (Z.eqb_spec (w1 k) 0), (Z.eqb_spec (w2 k) 0),
      (Z.eqb_spec (w1 k + w2 k) 0); simpl; try reflexivity; lia.
Qed.

(** One pass of the body on a column that has its keys. *)
Lemma column_body_effect σ row c st :
  keyed st c →
  ∃ st', column_body σ row c st = Ok st'
    ∧ column_effect (field (deref σ row))
        (fun k => if decide (c = k) then 1 else 0) st st'.
Proof.
  intros ([m Hm] & [b Hb] & [n Hn]).
  unfold column_body, getitem.
  destruct (is_missing (field (deref σ row) c)) eqn:Emiss.
  - rewrite Hm. simpl. eexists; split; [reflexivity |].
    split; [reflexivity | split; [reflexivity |]]. simpl. intros k.
    destruct (decide (c = k)) as [<-|Hne].
    + rewrite lookup_insert_eq, Hm, Emiss. simpl. repeat split.
      * destruct (non_missing_seen st !! c); simpl; [f_equal; lia | reflexivity].
      * destruct (numeric_possible st !! c) as [[]|]; reflexivity.
    + rewrite lookup_insert_ne by exact Hne. repeat split.
      * destruct (missing_counts st !! k); simpl; [| reflexivity].
        f_equal. case_match; lia.
      * destruct (non_missing_seen st !! k); simpl; [| reflexivity].
        f_equal. case_match; lia.
      * destruct (numeric_possible st !! k) as [b'|]; simpl; [| reflexivity].
        rewrite orb_true_r, andb_true_r. reflexivity.
  - rewrite Hn. simpl. rewrite Hb. simpl. eexists; split; [reflexivity |].
    split; [reflexivity | split; [reflexivity |]]. simpl. intros k.
    destruct (decide (c = k)) as [<-|Hne].
    + rewrite lookup_insert_eq, Hm, Hn, Emiss. simpl. repeat split.
      * f_equal. lia.
      * rewrite orb_false_r.
        destruct b, (is_number (strip (field (deref σ row) c))); simpl;
          rewrite ?lookup_insert_eq, ?Hb; reflexivity.
    + rewrite lookup_insert_ne by exact Hne. repeat split.
      * destruct (missing_counts st !! k); simpl; [| reflexivity].
        f_equal. case_match; lia.
      * destruct (non_missing_seen st !! k); simpl; [| reflexivity].
        f_equal. case_match; lia.
      * assert (Hk : (if b && negb (is_number (strip (field (deref σ row) c)))
                      then <[c:=false]> (numeric_possible st)
                      else numeric_possible st) !! k
                     = numeric_possible st !! k).
        { destruct (b && _); [apply lookup_insert_ne; exact Hne | reflexivity]. }
        rewrite Hk.
        destruct (numeric_possible st !! k) as [b'|]; simpl; [| reflexivity].
        rewrite orb_true_r, andb_true_r. reflexivity.
Qed.

(** The whole loop over the columns, for one row. *)
Lemma columns_loop_effect σ row cs st :
  (∀ c, c ∈ cs → keyed st c) →
  ∃ st', for_each (column_body σ row) cs st = Ok st'
    ∧ column_effect (field (deref σ row)) (fun k => occ k cs) st st'.
Proof.
  revert st. induction cs as [|c cs IH]; intros st Hkeys.
  - exists st. split; [reflexivity | apply column_effect_refl].
  - destruct (column_body_effect σ row c st) as (st1 & E1 & F1).
    { apply Hkeys, list_elem_of_here. }
    destruct (IH st1) as (st2 & E2 & F2).
    { intros k Hk. eapply column_effect_keyed; [exact F1 |].
      apply Hkeys, list_elem_of_further, Hk. }
    exists st2. split.
    + simpl. rewrite E1. exact E2.
    + assert (W1 : ∀ k, 0 <= (if decide (c = k) then 1 else 0)).
      { intros k. destruct (decide (c = k)); lia. }
      assert (W2 : ∀ k, 0 <= occ k cs) by (intros k; apply occ_nonneg).
      exact (column_effect_trans _ _ _ _ _ _ W1 W2 F1 F2).
Qed.

(** ** The loop over the rows *)

(** One iteration: a new object for the record, then the body. *)
Lemma reader_step_effect head columns r σ st :
  (∀ c, c ∈ columns → keyed st c) →
  ∃ st', reader_step head columns r (σ, st) = Ok ((alloc σ r).2, st')
    ∧ row_count st' = row_count st + 1
    ∧ preview_rows st'
      = (if Z.of_nat (length (preview_rows st)) <? head
         then preview_rows st ++ [next σ] else preview_rows st)
    ∧ (∀ c, c ∈ columns → keyed st' c)
    ∧ ∀ k,
        missing_counts st' !! k
        = (fun x => x + (if is_missing (field r k) then occ k columns else 0))
            <$> missing_counts st !! k
        ∧ non_missing_seen st' !! k
          = (fun x => x + (if is_missing (field r k) then 0 else occ k columns))
              <$> non_missing_seen st !! k
        ∧ numeric_possible st' !! k
          = (fun b => b && (is_missing (field r k)
                            || is_number (strip (field r k))
                            || (occ k columns =? 0)))
              <$> numeric_possible st !! k.
Proof.
  intros Hkeys. unfold reader_step, row_body. simpl.
  set (st0 := {| row_count := row_count st + 1;
                 preview_rows := _;
                 missing_counts := missing_counts st;
                 numeric_possible := numeric_possible st;
                 non_missing_seen := non_missing_seen st |}).
  destruct (columns_loop_effect (alloc σ r).2 (next σ) columns st0)
    as (st1 & E1 & Hc & Hp & He).
  { exact Hkeys. }
  exists st1. simpl in E1. rewrite E1. simpl.
  split; [reflexivity |]. split; [exact Hc |]. split; [exact Hp |]. split.
  - intros c Hin. eapply column_effect_keyed.
    + split; [exact Hc | split; [exact Hp | exact He]].
    + apply (Hkeys c Hin).
  - intros k. specialize (He k). simpl in He. unfold deref in He. simpl in He.
    rewrite decide_True in He by reflexivity. exact He.
Qed.

Lemma rows_loop_effect head columns rs s :
  (∀ c, c ∈ columns → keyed s.2 c) →
  ∃ s', ingest_all head columns rs s = Ok s'
    ∧ rows_effect head columns rs s s'.
Proof.
  unfold ingest_all. revert s.
  induction rs as [|r rs IH]; intros [σ st] Hkeys; simpl in Hkeys.
  - exists (σ, st). split; [reflexivity |]. unfold rows_effect. simpl.
    rewrite take_nil, app_nil_r, Z.add_0_r, Nat.add_0_r.
    repeat split; try reflexivity.
    + intros i r Hi. rewrite lookup_nil in Hi. discriminate.
    + destruct (missing_counts st !! k); simpl; [f_equal; lia | reflexivity].
    + destruct (non_missing_seen st !! k); simpl; [f_equal; lia | reflexivity].
    + destruct (numeric_possible st !! k) as [b|]; simpl; [| reflexivity].
      rewrite andb_true_r. reflexivity.
  - destruct (reader_step_effect head columns r σ st Hkeys)
      as (st1 & E1 & Hc1 & Hp1 & Hk1 & He1).
    destruct (IH ((alloc σ r).2, st1) Hk1)
      as ([σ2 st2] & E2 & Hc2 & Hp2 & Hn2 & Hf2 & Hr2 & He2).
    simpl in Hc2, Hp2, Hn2, Hf2, Hr2, He2.
    exists (σ2, st2). split.
    { simpl. rewrite E1. simpl. exact E2. }
    unfold rows_effect. simpl.
    split; [lia |]. split; [| split; [lia | split; [| split]]].
    + rewrite Hp2, Hp1.
      destruct (Z.ltb_spec (Z.of_nat (length (preview_rows st))) head) as [Hlt|Hge].
      * rewrite length_app. simpl.
        replace (Z.to_nat (head - Z.of_nat (length (preview_rows st))))
          with (S (Z.to_nat (head - Z.of_nat (length (preview_rows st) + 1))))
          by lia.
        simpl. rewrite <- app_assoc. reflexivity.
      * replace (Z.to_nat (head - Z.of_nat (length (preview_rows st))))
          with 0%nat by lia.
        rewrite !take_0. reflexivity.
    + intros l Hl. rewrite Hf2 by lia. unfold deref. simpl.
      rewrite decide_False by lia. reflexivity.
    + intros [|i] r' Hi; simpl in Hi.
      * injection Hi as <-. rewrite Nat.add_0_r, Hf2 by lia.
        unfold deref. simpl. rewrite decide_True by reflexivity. reflexivity.
      * replace (next σ + S i)%nat with (S (next σ) + i)%nat by lia.
        apply Hr2. exact Hi.
    + intros k. destruct (He1 k) as (A1 & A2 & A3), (He2 k) as (B1 & B2 & B3).
      rewrite B1, B2, B3, A1, A2, A3.
      pose proof (occ_nonneg k columns) as Ho.
      repeat split.
      * destruct (missing_counts st !! k); simpl; [| reflexivity].
        f_equal. destruct (is_missing (field r k)); simpl; lia.
      * destruct (non_missing_seen st !! k); simpl; [| reflexivity].
        f_equal. destruct (is_missing (field r k)); simpl; lia.
      * destruct (numeric_possible st !! k) as [b|]; simpl; [| reflexivity].
        f_equal.
        destruct b, (is_missing (field r k)), (is_number (strip (field r k))),
          (occ k columns =? 0), (forallb _ rs); reflexivity.
Qed.

Lemma init_keyed columns c : c ∈ columns → keyed (init columns) c.
Proof.
  intros Hin. unfold keyed, init. simpl. rewrite !dict_comp_lookup.
  rewrite !decide_True by exact Hin. repeat split; eexists; reflexivity.
Qed.

(** The loop always runs to its end, and its result is the closed form. *)
Lemma run_effect head columns rs :
  ∃ σ st, run head columns rs = Ok (σ, st)
    ∧ rows_effect head columns rs (empty_store, init columns) (σ, st).
Proof.
  destruct (rows_loop_effect head columns rs (empty_store, init columns))
    as ([σ st] & E & F).
  { intros c Hc. apply init_keyed, Hc. }
  exists σ, st. split; assumption.
Qed.

(** The three dicts at the end of the loop, for a column of the header. *)
Lemma run_lookup head columns rs σ st c :
  run head columns rs = Ok (σ, st) → c ∈ columns →
  missing_counts st !! c
  = Some (occ c columns * tally (fun r => is_missing (field r c)) rs)
  ∧ non_missing_seen st !! c
    = Some (occ c columns * tally (fun r => negb (is_missing (field r c))) rs)
  ∧ numeric_possible st !! c
    = Some (forallb (fun r => is_missing (field r c)
                              || is_number (strip (field r c))) rs).
Proof.
  intros E Hin. destruct (run_effect head columns rs) as (σ' & st' & E' & F).
  rewrite E in E'. injection E' as <- <-.
  destruct F as (_ & _ & _ & _ & _ & He). destruct (He c) as (A1 & A2 & A3).
  simpl in A1, A2, A3. rewrite !dict_comp_lookup in *.
  rewrite !decide_True in * by exact Hin. simpl in *.
  assert (Ho : (occ c columns =? 0) = false).
  { apply Z.eqb_neq. rewrite occ_zero_iff. tauto. }
  rewrite Ho, orb_false_r in A3. auto.
Qed.

Lemma run_keyed head columns rs σ st c :
  run head columns rs = Ok (σ, st) → c ∈ columns → keyed st c.
Proof.
  intros E Hin. destruct (run_lookup _ _ _ _ _ _ E Hin) as (A1 & A2 & A3).
  unfold keyed. rewrite A1, A2, A3. repeat split; eexists; reflexivity.
Qed.

(** ** The summary *)

Lemma missing_pct_ok (m count : Z) :
  missing_pct m count
  = Ok (if count >? 0 then float_mul_int (int_truediv m count) 100
        else float_zero).
Proof.
  unfold missing_pct, truediv.
  destruct (Z.gtb_spec count 0) as [Hpos|Hle]; [| reflexivity].
  destruct (Z.eqb_spec count 0) as [->|Hne]; [lia | reflexivity].
Qed.

Lemma column_type_ok (st : locals) (c : str) (seen : Z) (possible : bool) :
  non_missing_seen st !! c = Some seen →
  numeric_possible st !! c = Some possible →
  column_type st c
  = Ok (if seen =? 0 then lit "empty"
        else if possible then lit "numeric" else lit "text").
Proof.
  intros Hs Hp. unfold column_type, getitem. rewrite Hs. simpl.
  destruct (seen =? 0); [reflexivity |]. rewrite Hp. reflexivity.
Qed.

Lemma summary_line_ok (st : locals) (c : str) (m seen : Z) (possible : bool) :
  missing_counts st !! c = Some m →
  non_missing_seen st !! c = Some seen →
  numeric_possible st !! c = Some possible →
  summary_line st c
  = Ok {| col_name := c;
          col_type := if seen =? 0 then lit "empty"
                      else if possible then lit "numeric" else lit "text";
          miss := m;
          miss_pct := if row_count st >? 0
                      then float_mul_int (int_truediv m (row_count st)) 100
                      else float_zero |}.
Proof.
  intros Hm Hs Hp. unfold summary_line.
  unfold getitem at 1. rewrite Hm. simpl.
  rewrite missing_pct_ok. simpl.
  rewrite (column_type_ok _ _ _ _ Hs Hp). reflexivity.
Qed.

Lemma map_result_ok {A B : Type} (f : A -> result B) (xs : list A) :
  (∀ x, x ∈ xs → ∃ y, f x = Ok y) →
  ∃ ys, map_result f xs = Ok ys ∧ Forall2 (fun x y => f x = Ok y) xs ys.
Proof.
  induction xs as [|x xs IH]; intros Hall.
  - exists []. split; [reflexivity | constructor].
  - destruct (Hall x) as [y Hy]; [apply list_elem_of_here |].
    destruct IH as (ys & E & F).
    { intros x' Hx'. apply Hall, list_elem_of_further, Hx'. }
    exists (y :: ys). split.
    + simpl. rewrite Hy. simpl. rewrite E. reflexivity.
    + constructor; assumption.
Qed.

(** [main] on a readable file with a header: the report is the one read off
    the variables at the end of the loop. *)
Lemma main_report inp columns :
  0 <= arg_head inp → path_exists inp = true → path_is_file inp = true →
  fieldnames inp = Some columns →
  ∃ σ st lines,
    run (arg_head inp) columns (records inp) = Ok (σ, st)
    ∧ Forall2 (fun c line => summary_line st c = Ok line) columns lines
    ∧ main inp
      = Ok {| out_rows := row_count st;
              out_columns := columns;
              out_summary := lines;
              out_preview_len :=
                Z.min (arg_head inp) (Z.of_nat (length (preview_rows st)));
              out_preview := map (deref σ) (preview_rows st) |}.
Proof.
  intros Hh He Hf Hc.
  destruct (run_effect (arg_head inp) columns (records inp)) as (σ & st & E & _).
  destruct (map_result_ok (summary_line st) columns) as (lines & El & Fl).
  { intros c Hin.
    destruct (run_lookup _ _ _ _ _ _ E Hin) as (A1 & A2 & A3).
    eexists. apply (summary_line_ok _ _ _ _ _ A1 A2 A3). }
  exists σ, st, lines. split; [exact E | split; [exact Fl |]].
  unfold main. rewrite He, Hf, Hc. simpl.
  destruct (Z.ltb_spec (arg_head inp) 0) as [Hneg|_]; [lia |].
  rewrite E. simpl. unfold finalize. simpl.
  rewrite El. reflexivity.
Qed.

End Loops.

(** ** The type label, the missing percentage and the counters *)

Section Summary.
Context {H : Host}.




(** What the two counters of a column add up to: the number of rows, once
    for each time the column's name stands in the header. *)
Lemma counters_sum (head : Z) (columns : list str) (rs : list Row) (c : str) :
  c ∈ columns →
  ∃ σ st m n,
    run head columns rs = Ok (σ, st)
    ∧ missing_counts st !! c = Some m
    ∧ non_missing_seen st !! c = Some n
    ∧ row_count st = Z.of_nat (length rs)
    ∧ m + n = occ c columns * row_count st.
Proof.
  intros Hin.
  destruct (run_effect head columns rs) as (σ & st & E & Hc & _).
  destruct (run_lookup _ _ _ _ _ _ E Hin) as (A1 & A2 & A3).
  simpl in Hc.
  eexists σ, st, _, _.
  split; [exact E |]. split; [exact A1 |]. split; [exact A2 |].
  split; [lia |].
  rewrite Hc, <- (tally_split (fun r => is_missing (field r c)) rs). lia.
Qed.

(** X5. With a header of distinct names, the two counters of every column add
    up to the number of rows read, after any number of rows. *)
Lemma counters_sum_distinct (head : Z) (columns : list str) (rs : list Row)
    (c : str) :
  NoDup columns → c ∈ columns →
  ∃ σ st m n,
    run head columns rs = Ok (σ, st)
    ∧ missing_counts st !! c = Some m
    ∧ non_missing_seen st !! c = Some n
    ∧ m + n = row_count st.
Proof.
  intros Hnd Hin.
  destruct (counters_sum head columns rs c Hin)
    as (σ & st & m & n & E & A1 & A2 & _ & Hsum).
  exists σ, st, m, n. rewrite (occ_NoDup _ _ Hnd Hin) in Hsum.
  repeat split; try assumption. lia.
Qed.

(** C3, on the header [a,a] and the single row [,]: the loop over the columns
    visits the name [a] twice, so [missing_counts["a"]] is 2 after one row,
    and the two counters of [a] add up to 2, not to the row count 1. *)
Theorem duplicate_header_counts_twice :
  ∃ σ st,
    run 5 [lit "a"; lit "a"] [Sample.row [("a", "")%string]] = Ok (σ, st)
    ∧ row_count st = 1
    ∧ missing_counts st !! lit "a" = Some 2
    ∧ non_missing_seen st !! lit "a" = Some 0.
Proof.
  destruct (run_effect 5 [lit "a"; lit "a"] [Sample.row [("a", "")%string]])
    as (σ & st & E & Hc & _).
  assert (Hin : lit "a" ∈ [lit "a"; lit "a"]) by apply list_elem_of_here.
  destruct (run_lookup _ _ _ _ _ _ E Hin) as (A1 & A2 & _).
  exists σ, st. split; [exact E |]. split; [exact Hc |].
  split; [exact A1 | exact A2].
Qed.

End Summary.

(** ** The numeric flag *)

Section Flag.
Context {H : Host}.

Lemma forallb_false_iff {A : Type} (p : A -> bool) (xs : list A) :
  forallb p xs = false ↔ ∃ x, x ∈ xs ∧ p x = false.
Proof.
  induction xs as [|x xs IH]; simpl.
  - split; [discriminate | intros (x & Hx & _); apply elem_of_nil in Hx; contradiction].
  - rewrite andb_false_iff, IH. split.
    + intros [Hp|(y & Hy & Hp)].
      * exists x. split; [apply list_elem_of_here | exact Hp].
      * exists y. split; [apply list_elem_of_further, Hy | exact Hp].
    + intros (y & Hy & Hp). apply elem_of_cons in Hy.
      destruct Hy as [->|Hy]; [left; exact Hp | right; exists y; tauto].
Qed.

(** One pass of the body never raises a flag that is down. *)
Lemma column_body_keeps_false σ row c' st0 st1 (c : str) :
  column_body σ row c' st0 = Ok st1 →
  numeric_possible st0 !! c = Some false →
  numeric_possible st1 !! c = Some false.
Proof.
  unfold column_body, getitem. intros E Hf.
  destruct (is_missing (field (deref σ row) c')).
  - destruct (missing_counts st0 !! c'); simpl in E; [| discriminate].
    injection E as <-. exact Hf.
  - destruct (non_missing_seen st0 !! c'); simpl in E; [| discriminate].
    destruct (numeric_possible st0 !! c') as [b|]; simpl in E; [| discriminate].
    injection E as <-. simpl.
    destruct (b && negb (is_number (strip (field (deref σ row) c'))));
      [| exact Hf].
    destruct (decide (c' = c)) as [->|Hne].
    + apply lookup_insert_eq.
    + rewrite lookup_insert_ne by exact Hne. exact Hf.
Qed.

(** C2. For every header, rows and column [c] of the header, at the end of
    the loop [numeric_possible[c]] is false exactly when some row has a field
    for [c] that is not missing and whose stripped text [is_number] rejects.
    The flag is monotonic: if it is false after a prefix of the rows it is
    false at the end, and no pass of the loop body, on whatever row and
    column, sets a false flag back to true. *)
Theorem numeric_possible_iff (head : Z) (columns : list str) (rs : list Row)
    (c : str) :
  c ∈ columns →
  ∃ σ st possible,
    run head columns rs = Ok (σ, st)
    ∧ numeric_possible st !! c = Some possible
    ∧ (possible = false ↔
       ∃ r, r ∈ rs ∧ is_missing (field r c) = false
            ∧ is_number (strip (field r c)) = false)
    ∧ (∀ rs1 rs2 σ1 st1,
         rs = rs1 ++ rs2 →
         run head columns rs1 = Ok (σ1, st1) →
         numeric_possible st1 !! c = Some false →
         possible = false)
    ∧ (∀ σ' row c' st0 st1,
         column_body σ' row c' st0 = Ok st1 →
         numeric_possible st0 !! c = Some false →
         numeric_possible st1 !! c = Some false).
Proof.
  intros Hin.
  destruct (run_effect head columns rs) as (σ & st & E & _).
  destruct (run_lookup _ _ _ _ _ _ E Hin) as (_ & _ & A3).
  eexists σ, st, _. split; [exact E |]. split; [exact A3 |]. split; [| split].
  - rewrite forallb_false_iff. split.
    + intros (r & Hr & Hp). apply orb_false_iff in Hp. exists r. tauto.
    + intros (r & Hr & Hm & Hn). exists r. split; [exact Hr |].
      rewrite Hm, Hn. reflexivity.
  - intros rs1 rs2 σ1 st1 -> E1 Hf.
    destruct (run_lookup _ _ _ _ _ _ E1 Hin) as (_ & _ & B3).
    rewrite B3 in Hf. injection Hf as Hf.
    rewrite forallb_app, Hf. reflexivity.
  - intros σ' row c' st0 st1. apply column_body_keeps_false.
Qed.

End Flag.

(** ** The preview *)

Section Preview.
Context {H : Host}.

Lemma column_body_frame σ row c st st' :
  column_body σ row c st = Ok st' →
  preview_rows st' = preview_rows st ∧ row_count st' = row_count st.
Proof.
  unfold column_body, getitem. intros E.
  destruct (is_missing (field (deref σ row) c)).
  - destruct (missing_counts st !! c); simpl in E; [| discriminate].
    injection E as <-. split; reflexivity.
  - destruct (non_missing_seen st !! c); simpl in E; [| discriminate].
    destruct (numeric_possible st !! c); simpl in E; [| discriminate].
    injection E as <-. split; reflexivity.
Qed.

Lemma columns_loop_frame σ row cs st st' :
  for_each (column_body σ row) cs st = Ok st' →
  preview_rows st' = preview_rows st ∧ row_count st' = row_count st.
Proof.
  revert st. induction cs as [|c cs IH]; intros st E; simpl in E.
  - injection E as <-. split; reflexivity.
  - destruct (column_body σ row c st) as [st1|e] eqn:E1; simpl in E;
      [| discriminate].
    apply column_body_frame in E1. apply IH in E.
    destruct E1 as [P1 R1], E as [P2 R2]. split; congruence.
Qed.

(** The row objects of a run, read back in order, are the records. *)
Lemma run_store head columns rs σ st :
  run head columns rs = Ok (σ, st) →
  map (deref σ) (seq 0 (length rs)) = rs.
Proof.
  intros E. destruct (run_effect head columns rs) as (σ' & st' & E' & F).
  rewrite E in E'. injection E' as <- <-.
  destruct F as (_ & _ & _ & _ & Hr & _). simpl in Hr.
  apply list_eq. intros i. rewrite list_lookup_fmap.
  destruct (rs !! i) as [r|] eqn:Ei.
  - rewrite lookup_seq_lt by (apply lookup_lt_Some in Ei; exact Ei).
    simpl. f_equal. apply Hr. exact Ei.
  - rewrite lookup_seq_ge by (apply lookup_ge_None in Ei; exact Ei).
    reflexivity.
Qed.

Lemma run_preview head columns rs σ st :
  run head columns rs = Ok (σ, st) →
  preview_rows st = take (Z.to_nat head) (seq 0 (length rs)).
Proof.
  intros E. destruct (run_effect head columns rs) as (σ' & st' & E' & F).
  rewrite E in E'. injection E' as <- <-.
  destruct F as (_ & Hp & _). simpl in Hp. rewrite Hp.
  rewrite Z.sub_0_r. reflexivity.
Qed.

(** C4. For a non-negative [head] and any rows, the loop ends with a preview
    of exactly [min(head, row_count)] entries, which read as the first rows
    in the order they came; and a pass of the loop body that starts with a
    preview of at least [head] entries leaves the preview as it is. *)
Theorem preview_is_prefix (head : Z) (columns : list str) (rs : list Row) :
  0 <= head →
  ∃ σ st,
    run head columns rs = Ok (σ, st)
    ∧ row_count st = Z.of_nat (length rs)
    ∧ Z.of_nat (length (preview_rows st)) = Z.min head (row_count st)
    ∧ map (deref σ) (preview_rows st) = take (Z.to_nat head) rs
    ∧ (∀ σ' row st0 st1,
         head <= Z.of_nat (length (preview_rows st0)) →
         row_body head columns σ' row st0 = Ok st1 →
         preview_rows st1 = preview_rows st0).
Proof.
  intros Hh.
  destruct (run_effect head columns rs) as (σ & st & E & Hc & _).
  simpl in Hc. exists σ, st.
  split; [exact E |]. split; [lia |].
  rewrite (run_preview _ _ _ _ _ E). split; [| split].
  - rewrite length_take, length_seq. lia.
  - rewrite <- firstn_map. f_equal. exact (run_store _ _ _ _ _ E).
  - intros σ' row st0 st1 Hfull E1. unfold row_body in E1.
    apply columns_loop_frame in E1. destruct E1 as [-> _]. simpl.
    destruct (Z.ltb_spec (Z.of_nat (length (preview_rows st0))) head);
      [lia | reflexivity].
Qed.

(** C9, as the code has it. The preview holds references to the row objects
    themselves: the entry at index [i] is the object the reader built for the
    record at index [i], and at the end of the loop it still reads as that
    record, since nothing in the loop writes to a row. A later write to
    another object leaves an entry as it is; a later write to the captured
    object shows in the entry. *)
Theorem preview_holds_references (head : Z) (columns : list str)
    (rs : list Row) :
  ∃ σ st,
    run head columns rs = Ok (σ, st)
    ∧ (∀ i row, preview_rows st !! i = Some row →
         row = i ∧ rs !! i = Some (deref σ row))
    ∧ (∀ row l k v, l ≠ row →
         deref (setitem σ l k v) row = deref σ row)
    ∧ (∀ row k v,
         deref (setitem σ row k v) row = <[k := v]> (deref σ row)).
Proof.
  destruct (run_effect head columns rs) as (σ & st & E & _).
  exists σ, st. split; [exact E |]. split; [| split].
  - intros i row Hi. rewrite (run_preview _ _ _ _ _ E) in Hi.
    apply lookup_take_Some in Hi. destruct Hi as [Hi _].
    apply lookup_seq in Hi. destruct Hi as [-> Hlt]. simpl.
    split; [reflexivity |].
    pose proof (run_store _ _ _ _ _ E) as Hs.
    apply (f_equal (fun l => l !! i)) in Hs.
    rewrite list_lookup_fmap, lookup_seq_lt in Hs by exact Hlt.
    simpl in Hs. symmetry. exact Hs.
  - intros row l k v Hne. unfold deref, setitem. simpl.
    rewrite decide_False by congruence. reflexivity.
  - intros row k v. unfold deref, setitem. simpl.
    rewrite decide_True by reflexivity. reflexivity.
Qed.

End Preview.

(** ** Absent fields, the header check and the preview size *)

Section Policies.
Context {H : Host}.

Lemma is_missing_empty : is_missing (lit "") = true.
Proof. reflexivity. Qed.

Lemma for_each_app {A S : Type} (body : A -> S -> result S) (xs ys : list A)
    (s : S) :
  for_each body (xs ++ ys) s = for_each body xs s ≫= for_each body ys.
Proof.
  revert s. induction xs as [|x xs IH]; intros s; simpl; [reflexivity |].
  destruct (body x s) as [s'|e]; simpl; [apply IH | reflexivity].
Qed.

(** A field that is absent, or [None], reads as the empty string, and so
    does the field once it is set to the empty string; the other fields of
    the row are the same. *)
Lemma field_absent (r : Row) (c k : str) :
  r !! c = None ∨ r !! c = Some VNone →
  field r c = lit ""
  ∧ field (<[c := VStr (lit "")]> r) k = field r k.
Proof.
  intros Habs.
  assert (Hc : field r c = lit "").
  { unfold field, dict_get. destruct Habs as [-> | ->]; reflexivity. }
  split; [exact Hc |].
  destruct (decide (c = k)) as [<-|Hne].
  - rewrite Hc. unfold field, dict_get. rewrite lookup_insert_eq. reflexivity.
  - unfold field, dict_get. rewrite lookup_insert_ne by exact Hne. reflexivity.
Qed.

(** C7. Let the reader yield, after any rows [rs], a row [r] that has no
    entry for the column [c] of the header, or has [None] there. Ingesting
    [r] does not raise; it adds to [missing_counts[c]] one for each time [c]
    stands in the header (at least one; exactly one for a header of distinct
    names) and leaves [numeric_possible[c]] and [non_missing_seen[c]] as
    they were; and it ends with the very variables that ingesting the row
    with the entry set to the empty string ends with. *)
Theorem absent_field_counts_missing (head : Z) (columns : list str)
    (rs : list Row) (r : Row) (c : str) :
  c ∈ columns →
  r !! c = None ∨ r !! c = Some VNone →
  ∃ σ0 st σ1 st1 σ1' m,
    run head columns rs = Ok (σ0, st)
    ∧ reader_step head columns r (σ0, st) = Ok (σ1, st1)
    ∧ run head columns (rs ++ [r]) = Ok (σ1, st1)
    ∧ reader_step head columns (<[c := VStr (lit "")]> r) (σ0, st)
      = Ok (σ1', st1)
    ∧ row_count st1 = row_count st + 1
    ∧ missing_counts st !! c = Some m
    ∧ missing_counts st1 !! c = Some (m + occ c columns)
    ∧ 1 <= occ c columns
    ∧ (NoDup columns → missing_counts st1 !! c = Some (m + 1))
    ∧ numeric_possible st1 !! c = numeric_possible st !! c
    ∧ non_missing_seen st1 !! c = non_missing_seen st !! c.
Proof.
  intros Hin Habs.
  destruct (run_effect head columns rs) as (σ0 & st & E & _).
  assert (Hkeys : ∀ k, k ∈ columns → keyed st k).
  { intros k Hk. exact (run_keyed _ _ _ _ _ _ E Hk). }
  destruct (reader_step_effect head columns r σ0 st Hkeys)
    as (st1 & E1 & Hc1 & Hp1 & _ & He1).
  destruct (reader_step_effect head columns (<[c := VStr (lit "")]> r) σ0 st
              Hkeys) as (st1' & E1' & Hc1' & Hp1' & _ & He1').
  assert (Hsame : st1' = st1).
  { assert (Hm : missing_counts st1' = missing_counts st1).
    { apply map_eq. intros k.
      destruct (He1 k) as (-> & _), (He1' k) as (-> & _).
      rewrite (proj2 (field_absent r c k Habs)). reflexivity. }
    assert (Hn : non_missing_seen st1' = non_missing_seen st1).
    { apply map_eq. intros k.
      destruct (He1 k) as (_ & -> & _), (He1' k) as (_ & -> & _).
      rewrite (proj2 (field_absent r c k Habs)). reflexivity. }
    assert (Hf : numeric_possible st1' = numeric_possible st1).
    { apply map_eq. intros k.
      destruct (He1 k) as (_ & _ & ->), (He1' k) as (_ & _ & ->).
      rewrite (proj2 (field_absent r c k Habs)). reflexivity. }
    destruct st1, st1'. simpl in *. congruence. }
  destruct (Hkeys c Hin) as ([m Hm] & [b Hb] & [n Hn]).
  destruct (He1 c) as (A1 & A2 & A3).
  rewrite (proj1 (field_absent r c c Habs)), is_missing_empty in A1, A2, A3.
  rewrite Hm in A1. rewrite Hn in A2. rewrite Hb in A3. simpl in A1, A2, A3.
  assert (Hocc : 1 <= occ c columns).
  { pose proof (occ_nonneg c columns). pose proof (occ_zero_iff c columns).
    destruct (Z.eq_dec (occ c columns) 0); [tauto | lia]. }
  exists σ0, st, (alloc σ0 r).2, st1,
    (alloc σ0 (<[c := VStr (lit "")]> r)).2, m.
  split; [exact E |]. split; [exact E1 |]. split.
  { unfold run, ingest_all. rewrite for_each_app.
    unfold run, ingest_all in E. rewrite E. simpl. rewrite E1. reflexivity. }
  split; [rewrite E1', Hsame; reflexivity |].
  split; [exact Hc1 |]. split; [exact Hm |]. split; [exact A1 |].
  split; [exact Hocc |]. split.
  { intros Hnd. rewrite A1, (occ_NoDup _ _ Hnd Hin). reflexivity. }
  split.
  - rewrite A3, Hb, andb_true_r. reflexivity.
  - rewrite A2, Hn. f_equal. lia.
Qed.

(** Without a header line, [main] stops before the loop. *)
Lemma no_header_exits (inp : input) :
  0 <= arg_head inp → path_exists inp = true → path_is_file inp = true →
  fieldnames inp = None →
  main inp = Raise (SystemExit NoHeader).
Proof.
  intros Hh He Hf Hn. unfold main. rewrite He, Hf, Hn. simpl.
  destruct (Z.ltb_spec (arg_head inp) 0); [lia | reflexivity].
Qed.

(** C8, on a file whose first line is blank and whose second line is [1,2]:
    [reader.fieldnames] is the empty list, not [None], so the check passes.
    The row dict holds the two fields under the key [None] only, so it has no
    [str] key; the row is counted, captured in the preview, and a report with
    no column is printed. *)
Theorem blank_header_is_profiled :
  main {| arg_head := 5; path_exists := true; path_is_file := true;
          fieldnames := Some []; records := [∅] |}
  = Ok {| out_rows := 1; out_columns := []; out_summary := [];
          out_preview_len := 1; out_preview := [∅] |}.
Proof. reflexivity. Qed.

Lemma summary_line_stats (st1 st2 : locals) (c : str) :
  row_count st1 = row_count st2 →
  missing_counts st1 = missing_counts st2 →
  non_missing_seen st1 = non_missing_seen st2 →
  numeric_possible st1 = numeric_possible st2 →
  summary_line st1 c = summary_line st2 c.
Proof.
  intros Hr Hm Hs Hp. unfold summary_line, column_type.
  rewrite Hr, Hm, Hs, Hp. reflexivity.
Qed.

Lemma Forall2_result_eq {A B : Type} (f g : A -> result B) (xs : list A)
    (ys zs : list B) :
  (∀ x, f x = g x) →
  Forall2 (fun x y => f x = Ok y) xs ys →
  Forall2 (fun x z => g x = Ok z) xs zs →
  ys = zs.
Proof.
  intros Hfg Hy. revert zs.
  induction Hy as [|x y xs ys Hx _ IH]; intros zs Hz; inversion Hz; subst.
  - reflexivity.
  - f_equal; [| apply IH; assumption].
    rewrite Hfg in Hx. congruence.
Qed.

(** C10. Two runs on the same header and rows with two non-negative [head]
    values both end, with the same row count and the same three dicts, and
    [main] prints the same row count, columns and summary lines (type,
    missing count and missing percentage of every column) in both. *)
Theorem head_independent (head1 head2 : Z) (columns : list str)
    (rs : list Row) :
  0 <= head1 → 0 <= head2 →
  ∃ σ1 st1 σ2 st2 rep1 rep2,
    run head1 columns rs = Ok (σ1, st1)
    ∧ run head2 columns rs = Ok (σ2, st2)
    ∧ row_count st1 = row_count st2
    ∧ missing_counts st1 = missing_counts st2
    ∧ non_missing_seen st1 = non_missing_seen st2
    ∧ numeric_possible st1 = numeric_possible st2
    ∧ main {| arg_head := head1; path_exists := true; path_is_file := true;
              fieldnames := Some columns; records := rs |} = Ok rep1
    ∧ main {| arg_head := head2; path_exists := true; path_is_file := true;
              fieldnames := Some columns; records := rs |} = Ok rep2
    ∧ out_rows rep1 = out_rows rep2
    ∧ out_columns rep1 = out_columns rep2
    ∧ out_summary rep1 = out_summary rep2.
Proof.
  intros H1 H2.
  set (inp1 := {| arg_head := head1; path_exists := true; path_is_file := true;
                  fieldnames := Some columns; records := rs |}).
  set (inp2 := {| arg_head := head2; path_exists := true; path_is_file := true;
                  fieldnames := Some columns; records := rs |}).
  destruct (main_report inp1 columns H1 eq_refl eq_refl eq_refl)
    as (σ1 & st1 & lines1 & E1 & L1 & M1).
  destruct (main_report inp2 columns H2 eq_refl eq_refl eq_refl)
    as (σ2 & st2 & lines2 & E2 & L2 & M2).
  simpl in E1, E2.
  destruct (run_effect head1 columns rs) as (σ1' & st1' & E1' & F1).
  destruct (run_effect head2 columns rs) as (σ2' & st2' & E2' & F2).
  rewrite E1 in E1'. injection E1' as <- <-.
  rewrite E2 in E2'. injection E2' as <- <-.
  destruct F1 as (C1 & _ & _ & _ & _ & G1), F2 as (C2 & _ & _ & _ & _ & G2).
  simpl in C1, C2, G1, G2.
  assert (Hr : row_count st1 = row_count st2) by lia.
  assert (Hm : missing_counts st1 = missing_counts st2).
  { apply map_eq. intros k. destruct (G1 k) as (-> & _), (G2 k) as (-> & _).
    reflexivity. }
  assert (Hs : non_missing_seen st1 = non_missing_seen st2).
  { apply map_eq. intros k.
    destruct (G1 k) as (_ & -> & _), (G2 k) as (_ & -> & _). reflexivity. }
  assert (Hp : numeric_possible st1 = numeric_possible st2).
  { apply map_eq. intros k.
    destruct (G1 k) as (_ & _ & ->), (G2 k) as (_ & _ & ->). reflexivity. }
  exists σ1, st1, σ2, st2. eexists _, _.
  split; [exact E1 |]. split; [exact E2 |].
  split; [exact Hr |]. split; [exact Hm |]. split; [exact Hs |].
  split; [exact Hp |]. split; [exact M1 |]. split; [exact M2 |]. simpl.
  split; [exact Hr |]. split; [reflexivity |].
  apply (Forall2_result_eq (summary_line st1) (summary_line st2) columns);
    [| exact L1 | exact L2].
  intros c. apply summary_line_stats; assumption.
Qed.

End Policies.

(** ** Outcomes of [main] and the shape of the report *)

Section Outcome.
Context {H : Host}.

(** The outcomes of [main] when every library call returns. *)
Lemma main_cases (inp : input) :
  (main inp = Raise (SystemExit BadHead) ↔ arg_head inp < 0)
  ∧ (main inp = Raise (SystemExit FileNotFound) ↔
     0 <= arg_head inp ∧ path_exists inp = false)
  ∧ (main inp = Raise (SystemExit NotAFile) ↔
     0 <= arg_head inp ∧ path_exists inp = true ∧ path_is_file inp = false)
  ∧ (main inp = Raise (SystemExit NoHeader) ↔
     0 <= arg_head inp ∧ path_exists inp = true ∧ path_is_file inp = true
     ∧ fieldnames inp = None)
  ∧ ((∃ rep, main inp = Ok rep) ↔
     0 <= arg_head inp ∧ path_exists inp = true ∧ path_is_file inp = true
     ∧ is_Some (fieldnames inp))
  ∧ (∀ e, main inp = Raise e → ∃ m, e = SystemExit m).
Proof.
  assert (Hcases :
    arg_head inp < 0 ∧ main inp = Raise (SystemExit BadHead)
    ∨ 0 <= arg_head inp ∧ path_exists inp = false
      ∧ main inp = Raise (SystemExit FileNotFound)
    ∨ 0 <= arg_head inp ∧ path_exists inp = true ∧ path_is_file inp = false
      ∧ main inp = Raise (SystemExit NotAFile)
    ∨ 0 <= arg_head inp ∧ path_exists inp = true ∧ path_is_file inp = true
      ∧ fieldnames inp = None ∧ main inp = Raise (SystemExit NoHeader)
    ∨ 0 <= arg_head inp ∧ path_exists inp = true ∧ path_is_file inp = true
      ∧ is_Some (fieldnames inp) ∧ ∃ rep, main inp = Ok rep).
  { destruct (Z.ltb_spec (arg_head inp) 0) as [Hneg|Hpos].
    { left. split; [exact Hneg |]. unfold main.
      destruct (Z.ltb_spec (arg_head inp) 0); [reflexivity | lia]. }
    right. destruct (path_exists inp) eqn:He.
    2:{ left. repeat split; [exact Hpos |]. unfold main. rewrite He.
        destruct (Z.ltb_spec (arg_head inp) 0); [lia | reflexivity]. }
    right. destruct (path_is_file inp) eqn:Hf.
    2:{ left. repeat split; [exact Hpos |]. unfold main. rewrite He, Hf.
        destruct (Z.ltb_spec (arg_head inp) 0); [lia | reflexivity]. }
    right. destruct (fieldnames inp) as [columns|] eqn:Hc.
    - right. destruct (main_report inp columns Hpos He Hf Hc)
        as (σ & st & lines & _ & _ & E).
      repeat split; [exact Hpos | eexists; reflexivity | eexists; exact E].
    - left. repeat split; [exact Hpos |].
      exact (no_header_exits inp Hpos He Hf Hc). }
  destruct Hcases
    as [(C1 & E)|[(C1 & C2 & E)|[(C1 & C2 & C3 & E)|[(C1 & C2 & C3 & C4 & E)
        |(C1 & C2 & C3 & [cs C4] & rep & E)]]]];
    rewrite E, ?C2, ?C3, ?C4;
    (split; [split; [intros ?; try discriminate; lia | intros ?; reflexivity || lia] |]);
    (split; [split; [intros ?; try discriminate; try (repeat split; (lia || reflexivity))
                    | intros (? & ?); try discriminate; try reflexivity; lia] |]);
    (split; [split; [intros ?; try discriminate; try (repeat split; (lia || reflexivity))
                    | intros (? & ? & ?); try discriminate; try reflexivity; lia] |]);
    (split; [split; [intros ?; try discriminate; try (repeat split; (lia || reflexivity))
                    | intros (? & ? & ? & ?); try discriminate; try reflexivity; lia] |]);
    (split; [split; [intros (? & ?); try discriminate;
                     try (repeat split; (lia || reflexivity || (eexists; reflexivity)))
                    | intros (? & ? & ? & [? ?]); try discriminate;
                      try (eexists; reflexivity); lia] |]);
    intros e [= <-]; eexists; reflexivity.
Qed.

(** X1. How [main] ends, the library calls that may raise included. An
    exception of [path.exists()], [path.is_file()], [path.open], the
    construction of the reader, the reading of the header or the reading of
    a row leaves [main] as it is, and it is the first one in the order of
    the calls. Apart from that [main] exits with its own four messages, each
    exactly under its own condition and in the order of the checks, or
    prints the report, which it does exactly when every call returns and
    there is a header; its own dict lookups and its division never raise.
    When every call returns, [main_env] is [main]. *)
Theorem main_outcome (head : Z) (env : environment) :
  (main_env head env = inr (Raise (SystemExit BadHead)) ↔ head < 0)
  ∧ (main_env head env = inr (Raise (SystemExit FileNotFound)) ↔
     0 <= head ∧ env_exists env = inr false)
  ∧ (main_env head env = inr (Raise (SystemExit NotAFile)) ↔
     0 <= head ∧ env_exists env = inr true ∧ env_is_file env = inr false)
  ∧ (main_env head env = inr (Raise (SystemExit NoHeader)) ↔
     0 <= head ∧ env_exists env = inr true ∧ env_is_file env = inr true
     ∧ env_open env = inr tt ∧ env_reader env = inr tt
     ∧ env_fieldnames env = inr None)
  ∧ ((∃ rep, main_env head env = inr (Ok rep)) ↔
     0 <= head ∧ env_exists env = inr true ∧ env_is_file env = inr true
     ∧ env_open env = inr tt ∧ env_reader env = inr tt
     ∧ (∃ columns, env_fieldnames env = inr (Some columns))
     ∧ env_rows_end env = inr tt)
  ∧ (∀ e, main_env head env = inl e ↔
     0 <= head
     ∧ (env_exists env = inl e
        ∨ env_exists env = inr true
          ∧ (env_is_file env = inl e
             ∨ env_is_file env = inr true
               ∧ (env_open env = inl e
                  ∨ env_open env = inr tt
                    ∧ (env_reader env = inl e
                       ∨ env_reader env = inr tt
                         ∧ (env_fieldnames env = inl e
                            ∨ (∃ columns,
                                 env_fieldnames env = inr (Some columns))
                              ∧ env_rows_end env = inl e))))))
  ∧ (∀ e, main_env head env = inr (Raise e) → ∃ m, e = SystemExit m)
  ∧ (∀ ex isf fn,
       env_exists env = inr ex → env_is_file env = inr isf →
       env_open env = inr tt → env_reader env = inr tt →
       env_fieldnames env = inr fn → env_rows_end env = inr tt →
       main_env head env
       = inr (main {| arg_head := head; path_exists := ex;
                      path_is_file := isf; fieldnames := fn;
                      records := env_rows env |})).
Proof.
  assert (Hfin : ∀ columns, 0 <= head →
            ∃ s rep, run head columns (env_rows env) = Ok s
                     ∧ finalize head columns s = Ok rep).
  { intros columns Hh.
    destruct (main_report {| arg_head := head; path_exists := true;
                             path_is_file := true; fieldnames := Some columns;
                             records := env_rows env |} columns Hh
                eq_refl eq_refl eq_refl) as (σ & st & lines & E & _ & M).
    simpl in E. unfold main in M. simpl in M.
    destruct (Z.ltb_spec head 0); [lia |].
    rewrite E in M. simpl in M. eexists _, _. split; [exact E | exact M]. }
  destruct env as [ex isf op rd fn rows fin]. unfold main_env, main. simpl.
  simpl in Hfin.
  destruct (Z.ltb_spec head 0) as [Hneg|Hpos];
    [| destruct ex as [e0|[|]];
       [| destruct isf as [e1|[|]];
          [| destruct op as [e2|[]];
             [| destruct rd as [e3|[]];
                [| destruct fn as [e4|[columns|]];
                   [| destruct (Hfin columns Hpos) as (s & rep & Erun & Hrep);
                      rewrite Erun;
                      destruct fin as [e5|[]] |] ] ] |] |] ].
  all: repeat match goal with
       | |- _ ∧ _ => split
       | |- _ ↔ _ => split
       | |- ∀ _, _ => intro
       | |- _ → _ => intro
       end.
  all: repeat match goal with
       | H : _ ∧ _ |- _ => destruct H
       | H : ∃ _, _ |- _ => destruct H
       | H : _ ∨ _ |- _ => destruct H
       end.
  all: try discriminate; try lia; try congruence.
  all: try (rewrite ?Hrep; reflexivity).
  all: try (eexists; reflexivity).
  all: try (repeat split; (lia || reflexivity || (eexists; reflexivity))).
  all: try (split; [lia |]; eauto 12).
  all: try (subst; simpl; rewrite ?Hrep; congruence).
  all: repeat match goal with
       | H : inl _ = inl _ |- _ => injection H as <-
       | H : inr (Raise _) = inr (Raise _) |- _ => injection H as <-
       end.
  all: try (eexists; reflexivity).
  all: try solve [eauto 30].
  all: try (rewrite Hrep; eexists; reflexivity).
  all: repeat match goal with
       | H : inr _ = inr _ |- _ => injection H as ?
       end; subst; simpl; rewrite ?Erun; simpl; rewrite ?Hrep; try reflexivity.
Qed.

(** X2. On a readable file with a header, the report names the header as it is,
    has one summary line per entry of the header, in the header's order, and
    counts every record; the number in the preview's title is the number of
    rows printed under it, and these rows are the first records. *)
Theorem report_follows_header (inp : input) (columns : list str) :
  0 <= arg_head inp → path_exists inp = true → path_is_file inp = true →
  fieldnames inp = Some columns →
  ∃ rep,
    main inp = Ok rep
    ∧ out_columns rep = columns
    ∧ map col_name (out_summary rep) = columns
    ∧ out_rows rep = Z.of_nat (length (records inp))
    ∧ out_preview rep = take (Z.to_nat (arg_head inp)) (records inp)
    ∧ out_preview_len rep = Z.of_nat (length (out_preview rep)).
Proof.
  intros Hh He Hf Hc.
  destruct (main_report inp columns Hh He Hf Hc)
    as (σ & st & lines & E & L & M).
  eexists. split; [exact M |]. simpl.
  destruct (run_effect (arg_head inp) columns (records inp))
    as (σ' & st' & E' & Hcount & _).
  rewrite E in E'. injection E' as <- <-. simpl in Hcount.
  split; [reflexivity |]. split; [| split; [lia | split]].
  - clear -L. induction L as [|c line cs ls Hl _ IH]; [reflexivity |].
    simpl. f_equal; [| exact IH].
    unfold summary_line in Hl.
    destruct (getitem (missing_counts st) c); simpl in Hl; [| discriminate].
    destruct (missing_pct _ _); simpl in Hl; [| discriminate].
    destruct (column_type st c); simpl in Hl; [| discriminate].
    injection Hl as <-. reflexivity.
  - rewrite (run_preview _ _ _ _ _ E), <- firstn_map. f_equal.
    exact (run_store _ _ _ _ _ E).
  - rewrite length_map, (run_preview _ _ _ _ _ E), length_take, length_seq.
    lia.
Qed.

End Outcome.

(** ** The statistics as a function of the rows *)

Section Rows.
Context {H : Host}.

(** The three dicts at the end of the loop, at any key. *)
Lemma run_dicts head columns rs σ st :
  run head columns rs = Ok (σ, st) →
  row_count st = Z.of_nat (length rs)
  ∧ ∀ k,
      missing_counts st !! k
      = (if decide (k ∈ columns)
         then Some (occ k columns * tally (fun r => is_missing (field r k)) rs)
         else None)
      ∧ non_missing_seen st !! k
        = (if decide (k ∈ columns)
           then Some (occ k columns
                      * tally (fun r => negb (is_missing (field r k))) rs)
           else None)
      ∧ numeric_possible st !! k
        = (if decide (k ∈ columns)
           then Some (forallb (fun r => is_missing (field r k)
                                        || is_number (strip (field r k))) rs)
           else None).
Proof.
  intros E. split.
  - destruct (run_effect head columns rs) as (σ' & st' & E' & Hc & _).
    rewrite E in E'. injection E' as <- <-. simpl in Hc. lia.
  - intros k. destruct (decide (k ∈ columns)) as [Hin|Hnin].
    + exact (run_lookup _ _ _ _ _ _ E Hin).
    + destruct (run_effect head columns rs) as (σ' & st' & E' & F).
      rewrite E in E'. injection E' as <- <-.
      destruct F as (_ & _ & _ & _ & _ & He).
      destruct (He k) as (A1 & A2 & A3). simpl in A1, A2, A3.
      rewrite !dict_comp_lookup in *.
      rewrite !decide_False in * by exact Hnin. auto.
Qed.

(** Two runs whose rows give every column of the header the same tallies
    end with the same statistics. *)
Lemma run_stats_eq head head' columns rs rs' σ st σ' st' :
  run head columns rs = Ok (σ, st) →
  run head' columns rs' = Ok (σ', st') →
  length rs = length rs' →
  (∀ k, k ∈ columns →
     tally (fun r => is_missing (field r k)) rs
     = tally (fun r => is_missing (field r k)) rs'
     ∧ forallb (fun r => is_missing (field r k)
                         || is_number (strip (field r k))) rs
       = forallb (fun r => is_missing (field r k)
                           || is_number (strip (field r k))) rs') →
  stats st = stats st'.
Proof.
  intros E E' Hlen Hk.
  destruct (run_dicts _ _ _ _ _ E) as (C & D).
  destruct (run_dicts _ _ _ _ _ E') as (C' & D').
  assert (Hneg : ∀ k, k ∈ columns →
            tally (fun r => negb (is_missing (field r k))) rs
            = tally (fun r => negb (is_missing (field r k))) rs').
  { intros k Hin. destruct (Hk k Hin) as (T & _).
    pose proof (tally_split (fun r => is_missing (field r k)) rs).
    pose proof (tally_split (fun r => is_missing (field r k)) rs').
    lia. }
  unfold stats. f_equal; [f_equal; [f_equal |] |].
  - lia.
  - apply map_eq. intros k. destruct (D k) as (-> & _), (D' k) as (-> & _).
    destruct (decide (k ∈ columns)) as [Hin|]; [| reflexivity].
    destruct (Hk k Hin) as (-> & _). reflexivity.
  - apply map_eq. intros k.
    destruct (D k) as (_ & -> & _), (D' k) as (_ & -> & _).
    destruct (decide (k ∈ columns)) as [Hin|]; [| reflexivity].
    rewrite (Hneg k Hin). reflexivity.
  - apply map_eq. intros k.
    destruct (D k) as (_ & _ & ->), (D' k) as (_ & _ & ->).
    destruct (decide (k ∈ columns)) as [Hin|]; [| reflexivity].
    destruct (Hk k Hin) as (_ & ->). reflexivity.
Qed.

Lemma tally_Permutation (p : Row -> bool) (rs rs' : list Row) :
  rs ≡ₚ rs' → tally p rs = tally p rs'.
Proof.
  induction 1 as [|r rs rs' _ IH|r1 r2 rs|rs1 rs2 rs3 _ IH1 _ IH2]; simpl.
  - reflexivity.
  - rewrite IH. reflexivity.
  - lia.
  - congruence.
Qed.

Lemma forallb_Permutation (p : Row -> bool) (rs rs' : list Row) :
  rs ≡ₚ rs' → forallb p rs = forallb p rs'.
Proof.
  induction 1 as [|r rs rs' _ IH|r1 r2 rs|rs1 rs2 rs3 _ IH1 _ IH2]; simpl.
  - reflexivity.
  - rewrite IH. reflexivity.
  - destruct (p r1), (p r2); reflexivity.
  - congruence.
Qed.

Lemma tally_app (p : Row -> bool) (rs1 rs2 : list Row) :
  tally p (rs1 ++ rs2) = tally p rs1 + tally p rs2.
Proof. induction rs1 as [|r rs1 IH]; simpl; [reflexivity | rewrite IH; lia]. Qed.



(** X6. The statistics do not depend on the order of the rows: two runs on the
    same rows in two orders end with the same row count and dicts, hence
    with the same summary line for every column. *)
Theorem rows_order_irrelevant (head : Z) (columns : list str)
    (rs rs' : list Row) :
  rs ≡ₚ rs' →
  ∃ σ st σ' st',
    run head columns rs = Ok (σ, st)
    ∧ run head columns rs' = Ok (σ', st')
    ∧ stats st = stats st'
    ∧ ∀ c, summary_line st c = summary_line st' c.
Proof.
  intros Hperm.
  destruct (run_effect head columns rs) as (σ & st & E & _).
  destruct (run_effect head columns rs') as (σ' & st' & E' & _).
  exists σ, st, σ', st'. split; [exact E |]. split; [exact E' |].
  assert (Hs : stats st = stats st').
  { apply (run_stats_eq _ _ _ _ _ _ _ _ _ E E').
    - apply Permutation_length, Hperm.
    - intros k _. split.
      + apply tally_Permutation, Hperm.
      + apply forallb_Permutation, Hperm. }
  split; [exact Hs |]. intros c. unfold stats in Hs.
  injection Hs as Hr Hm Hn Hp. apply summary_line_stats; assumption.
Qed.

(** X7. The statistics of a file are those of its two parts put together: for a
    column of the header, after the rows [rs1 ++ rs2] each counter is the sum
    of the counters after [rs1] and after [rs2] alone, the flag is the
    conjunction of the two flags, and the row count is the sum. *)
Theorem rows_append (head : Z) (columns : list str) (rs1 rs2 : list Row)
    (c : str) :
  c ∈ columns →
  ∃ σ1 st1 σ2 st2 σ st m1 m2 n1 n2 p1 p2,
    run head columns rs1 = Ok (σ1, st1)
    ∧ run head columns rs2 = Ok (σ2, st2)
    ∧ run head columns (rs1 ++ rs2) = Ok (σ, st)
    ∧ missing_counts st1 !! c = Some m1 ∧ missing_counts st2 !! c = Some m2
    ∧ non_missing_seen st1 !! c = Some n1 ∧ non_missing_seen st2 !! c = Some n2
    ∧ numeric_possible st1 !! c = Some p1 ∧ numeric_possible st2 !! c = Some p2
    ∧ row_count st = row_count st1 + row_count st2
    ∧ missing_counts st !! c = Some (m1 + m2)
    ∧ non_missing_seen st !! c = Some (n1 + n2)
    ∧ numeric_possible st !! c = Some (p1 && p2).
Proof.
  intros Hin.
  destruct (run_effect head columns rs1) as (σ1 & st1 & E1 & _).
  destruct (run_effect head columns rs2) as (σ2 & st2 & E2 & _).
  destruct (run_effect head columns (rs1 ++ rs2)) as (σ & st & E & _).
  destruct (run_lookup _ _ _ _ _ _ E1 Hin) as (A1 & A2 & A3).
  destruct (run_lookup _ _ _ _ _ _ E2 Hin) as (B1 & B2 & B3).
  destruct (run_lookup _ _ _ _ _ _ E Hin) as (C1 & C2 & C3).
  destruct (run_dicts _ _ _ _ _ E1) as (R1 & _).
  destruct (run_dicts _ _ _ _ _ E2) as (R2 & _).
  destruct (run_dicts _ _ _ _ _ E) as (R & _).
  exists σ1, st1, σ2, st2, σ, st. eexists _, _, _, _, _, _.
  split; [exact E1 |]. split; [exact E2 |]. split; [exact E |].
  split; [exact A1 |]. split; [exact B1 |].
  split; [exact A2 |]. split; [exact B2 |].
  split; [exact A3 |]. split; [exact B3 |].
  split; [rewrite R, R1, R2, length_app; lia |].
  split; [rewrite C1, tally_app; f_equal; lia |].
  split; [rewrite C2, tally_app; f_equal; lia |].
  rewrite C3, forallb_app. reflexivity.
Qed.

(** X8. Only the fields of the header's columns count: two files whose rows
    agree, row by row, on the field read for every column of the header
    end with the same statistics, whatever else the row dicts hold. *)
Theorem only_header_fields_matter (head : Z) (columns : list str)
    (rs rs' : list Row) :
  Forall2 (fun r r' => ∀ c, c ∈ columns → field r c = field r' c) rs rs' →
  ∃ σ st σ' st',
    run head columns rs = Ok (σ, st)
    ∧ run head columns rs' = Ok (σ', st')
    ∧ stats st = stats st'.
Proof.
  intros Hagree.
  destruct (run_effect head columns rs) as (σ & st & E & _).
  destruct (run_effect head columns rs') as (σ' & st' & E' & _).
  exists σ, st, σ', st'. split; [exact E |]. split; [exact E' |].
  apply (run_stats_eq _ _ _ _ _ _ _ _ _ E E').
  - eapply Forall2_length, Hagree.
  - intros k Hk. clear E E'.
    induction Hagree as [|r r' rs rs' Hr _ IH]; [split; reflexivity |].
    destruct IH as (IH1 & IH2). simpl.
    rewrite (Hr k Hk), IH1, IH2. split; reflexivity.
Qed.

End Rows.

(** ** What [float] is asked *)

Lemma lstrip_fixed (s : str) :
  (∀ c, head s = Some c → is_space c = false) → lstrip s = s.
Proof.
  destruct s as [|c s]; intros Hh; simpl; [reflexivity |].
  rewrite (Hh c eq_refl). reflexivity.
Qed.

Lemma strip_idempotent (s : str) : strip (strip s) = strip s.
Proof.
  destruct (strip_middle s) as (_ & _ & _ & _ & _ & Hh & Hl).
  unfold strip at 1. rewrite (lstrip_fixed _ Hh). unfold rstrip.
  rewrite lstrip_fixed.
  - apply reverse_involutive.
  - intros c Hc. rewrite head_reverse in Hc. apply Hl, Hc.
Qed.

Lemma for_each_ext {A S : Type} (f g : A -> S -> result S) (xs : list A) (s : S) :
  (∀ x s, f x s = g x s) → for_each f xs s = for_each g xs s.
Proof.
  intros Hfg. revert s. induction xs as [|x xs IH]; intros s; simpl.
  - reflexivity.
  - rewrite Hfg. destruct (g x s); simpl; [apply IH | reflexivity].
Qed.

Section Parser.
Context {H : Host}.

(** X9. The tool asks [float] only about strings that are not empty and have no
    whitespace at either end: a run gives the same result under any other
    answer of [float] on the empty string and on padded strings. *)
Theorem float_never_sees_blank (p : str -> bool) (head : Z)
    (columns : list str) (rs : list Row) :
  (∀ s, s ≠ lit "" → strip s = s → p s = float_parses s) →
  @run (with_parser H p) head columns rs = @run H head columns rs.
Proof.
  intros Hp. unfold run, ingest_all. apply for_each_ext. intros r [σ st].
  unfold reader_step. simpl. unfold row_body.
  rewrite (for_each_ext (@column_body (with_parser H p) (alloc σ r).2 (next σ))
             (@column_body H (alloc σ r).2 (next σ))); [reflexivity |].
  intros c st'. unfold column_body.
  destruct (is_missing (field (deref (alloc σ r).2 (next σ)) c)) eqn:Em;
    [reflexivity |].
  assert (En : @is_number (with_parser H p)
                 (strip (field (deref (alloc σ r).2 (next σ)) c))
               = @is_number H (strip (field (deref (alloc σ r).2 (next σ)) c))).
  { unfold is_number, py_float. simpl. rewrite Hp; [reflexivity | |].
    - unfold is_missing, str_eqb in Em. apply bool_decide_eq_false in Em.
      exact Em.
    - apply strip_idempotent. }
  rewrite En. reflexivity.
Qed.

End Parser.

(** * Properties of the password generator *)

Section PasswordGenFacts.
Import PasswordGen.

Lemma randbelow_spec (n : nat) (g : rng) :
  (0 < n)%nat →
  ∃ i, randbelow n g = Returns i (fun k => g (S k)) ∧ (i < n)%nat.
Proof.
  intros Hn. unfold randbelow.
  destruct (Nat.eqb_spec n 0) as [->|_]; [lia |].
  eexists. split; [reflexivity |]. apply Nat.mod_upper_bound. lia.
Qed.

(** A choice from a sequence that is not empty returns one of its
    characters. *)
Lemma choice_spec (seq : str) (g : rng) :
  seq ≠ [] →
  ∃ c, choice seq g = Returns c (fun k => g (S k)) ∧ c ∈ seq.
Proof.
  intros Hne. destruct seq as [|c0 seq]; [contradiction |].
  unfold choice. set (s := c0 :: seq).
  destruct (randbelow_spec (List.length s) g) as (i & Ei & Hi);
    [simpl; lia |].
  unfold mbind, M_bind. rewrite Ei. unfold str in *.
  destruct (s !! i) as [c|] eqn:Hc.
  - exists c. split; [reflexivity |].
    apply list_elem_of_lookup. exists i. exact Hc.
  - apply lookup_ge_None in Hc. lia.
Qed.

Lemma swap_spec (x : list char) (i j : nat) (g : rng) :
  (i < List.length x)%nat → (j < List.length x)%nat →
  ∃ y, swap x i j g = Returns y g ∧ y ≡ₚ x.
Proof.
  intros Hi Hj. unfold swap.
  destruct (x !! j) as [xj|] eqn:Ej; [| apply lookup_ge_None in Ej; lia].
  destruct (x !! i) as [xi|] eqn:Ei; [| apply lookup_ge_None in Ei; lia].
  eexists. split; [reflexivity |].
  apply Permutation_insert_swap; assumption.
Qed.

Lemma shuffle_from_spec (i : nat) (x : list char) (g : rng) :
  (i < List.length x)%nat ∨ i = 0%nat →
  ∃ y g', shuffle_from i x g = Returns y g' ∧ y ≡ₚ x.
Proof.
  revert x g. induction i as [|i IH]; intros x g Hi.
  - exists x, g. split; reflexivity.
  - destruct Hi as [Hi|Hi]; [| discriminate].
    destruct (randbelow_spec (S (i + 1)) g) as (j & Ej & Hj); [lia |].
    destruct (swap_spec x (S i) j (fun k => g (S k))) as (x' & Es & Hp);
      [exact Hi | lia |].
    destruct (IH x' (fun k => g (S k))) as (y & g' & Ey & Hy).
    { left. rewrite (Permutation_length Hp). lia. }
    exists y, g'. split; [| rewrite Hy; exact Hp].
    simpl. unfold mbind, M_bind. rewrite Ej, Es. exact Ey.
Qed.

(** The shuffle returns a rearrangement of its argument. *)
Lemma shuffle_spec (x : list char) (g : rng) :
  ∃ y g', shuffle x g = Returns y g' ∧ y ≡ₚ x.
Proof.
  unfold shuffle. apply shuffle_from_spec.
  destruct x as [|c x]; [right; reflexivity | left; simpl; lia].
Qed.

(** The loop that fills up the password ends, with characters of the pool
    appended until the length is reached. *)
Lemma fill_spec (len : Z) (pool : str) (chars : list char) (g : rng) :
  pool ≠ [] →
  ∃ added g',
    fill len pool chars g = Returns (chars ++ added) g'
    ∧ List.length added = Z.to_nat (len - Z.of_nat (List.length chars))
    ∧ Forall (fun c => c ∈ pool) added.
Proof.
  intros Hne. funelim (fill len pool chars g).
  - exists [], g. rewrite app_nil_r. split; [reflexivity |].
    split; [simpl; lia | constructor].
  - destruct (H Hne) as (added & g'' & E & Hl & Hf).
    destruct (choice_spec pool g Hne) as (c' & Ec & Hc).
    rewrite Heq in Ec. injection Ec as Hcc _. subst c'.
    exists (c :: added), g''. rewrite E, <- app_assoc. split; [reflexivity |].
    split; [| constructor; assumption].
    simpl. rewrite Hl, length_app. simpl. lia.
  - destruct (choice_spec pool g Hne) as (c' & Ec & _). congruence.
Qed.

(** A password of sufficient length, taken apart: one character of each
    required class, then characters of the pool, all rearranged. *)
Lemma generate_password_parts (length : Z) (use_symbols : bool) (g : rng) :
  (if use_symbols then 4 else 3) <= length →
  ∃ c1 c2 c3 s4 added pw g',
    generate_password length use_symbols g = Returns pw g'
    ∧ pw ≡ₚ [c1; c2; c3] ++ s4 ++ added
    ∧ c1 ∈ lowers ∧ c2 ∈ uppers ∧ c3 ∈ digits
    ∧ (if use_symbols then ∃ c4, s4 = [c4] ∧ c4 ∈ symbols else s4 = [])
    ∧ Forall (fun c => c ∈ pool_of use_symbols) added
    ∧ Z.of_nat (List.length pw) = length.
Proof.
  intros Hmin. unfold generate_password.
  destruct (Z.ltb_spec length (if use_symbols then 4 else 3)) as [Hlt|_];
    [lia |].
  set (g1 := fun k => g (S k)). set (g2 := fun k => g1 (S k)).
  set (g3 := fun k => g2 (S k)).
  destruct (choice_spec lowers g) as (c1 & E1 & H1); [discriminate |].
  destruct (choice_spec uppers g1) as (c2 & E2 & H2); [discriminate |].
  destruct (choice_spec digits g2) as (c3 & E3 & H3); [discriminate |].
  unfold mbind, M_bind. rewrite E1. fold g1. rewrite E2. fold g2.
  rewrite E3. fold g3.
  destruct use_symbols.
  - destruct (choice_spec symbols g3) as (c4 & E4 & H4); [discriminate |].
    rewrite E4. unfold mret, M_ret.
    destruct (fill_spec length ((lowers ++ uppers ++ digits) ++ symbols)
                [c1; c2; c3; c4] (fun k => g3 (S k)))
      as (added & g5 & Ef & Hl & Hf); [discriminate |].
    rewrite Ef.
    destruct (shuffle_spec ([c1; c2; c3; c4] ++ added) g5)
      as (pw & g6 & Es & Hp).
    rewrite Es.
    exists c1, c2, c3, [c4], added, pw, g6.
    split; [reflexivity |]. split; [exact Hp |].
    split; [exact H1 |]. split; [exact H2 |]. split; [exact H3 |].
    split; [exists c4; split; [reflexivity | exact H4] |].
    split; [exact Hf |].
    rewrite (Permutation_length Hp), length_app, Hl. simpl. lia.
  - unfold mret, M_ret.
    destruct (fill_spec length (lowers ++ uppers ++ digits)
                [c1; c2; c3] g3)
      as (added & g5 & Ef & Hl & Hf); [discriminate |].
    rewrite Ef.
    destruct (shuffle_spec ([c1; c2; c3] ++ added) g5)
      as (pw & g6 & Es & Hp).
    rewrite Es.
    exists c1, c2, c3, [], added, pw, g6.
    split; [reflexivity |]. split; [exact Hp |].
    split; [exact H1 |]. split; [exact H2 |]. split; [exact H3 |].
    split; [reflexivity |].
    split; [exact Hf |].
    rewrite (Permutation_length Hp), length_app, Hl. simpl. lia.
Qed.

(** X10. The length check of [generate_password]: below 4 characters with
    symbols, or 3 without, it raises [ValueError] naming that minimum;
    otherwise it returns, whatever the random source, a password of exactly
    [length] characters. *)
Theorem generate_password_length (length : Z) (use_symbols : bool) (g : rng) :
  (length < (if use_symbols then 4 else 3) →
   generate_password length use_symbols g
   = Raises (ValueError (TooShort (if use_symbols then 4 else 3))))
  ∧ ((if use_symbols then 4 else 3) <= length →
     ∃ pw g',
       generate_password length use_symbols g = Returns pw g'
       ∧ Z.of_nat (List.length pw) = length).
Proof.
  split.
  - intros Hlt. unfold generate_password.
    destruct (Z.ltb_spec length (if use_symbols then 4 else 3)); [| lia].
    reflexivity.
  - intros Hmin.
    destruct (generate_password_parts length use_symbols g Hmin)
      as (c1 & c2 & c3 & s4 & added & pw & g' & E & _ & _ & _ & _ & _ & _ & Hl).
    exists pw, g'. split; assumption.
Qed.

(** X11. Every password holds a lowercase letter, an uppercase letter and a
    digit, and a symbol too when symbols are in use. *)
Theorem generate_password_classes (length : Z) (use_symbols : bool) (g : rng) :
  (if use_symbols then 4 else 3) <= length →
  ∃ pw g',
    generate_password length use_symbols g = Returns pw g'
    ∧ (∃ c, c ∈ pw ∧ c ∈ lowers)
    ∧ (∃ c, c ∈ pw ∧ c ∈ uppers)
    ∧ (∃ c, c ∈ pw ∧ c ∈ digits)
    ∧ (use_symbols = true → ∃ c, c ∈ pw ∧ c ∈ symbols).
Proof.
  intros Hmin.
  destruct (generate_password_parts length use_symbols g Hmin)
    as (c1 & c2 & c3 & s4 & added & pw & g' & E & Hp & H1 & H2 & H3 & H4 & _).
  exists pw, g'. split; [exact E |].
  split; [exists c1; split; [| exact H1] |].
  { rewrite Hp. apply elem_of_app. left. apply list_elem_of_here. }
  split; [exists c2; split; [| exact H2] |].
  { rewrite Hp. apply elem_of_app. left.
    apply list_elem_of_further, list_elem_of_here. }
  split; [exists c3; split; [| exact H3] |].
  { rewrite Hp. apply elem_of_app. left.
    do 2 apply list_elem_of_further. apply list_elem_of_here. }
  intros ->. destruct H4 as (c4 & -> & H4).
  exists c4. split; [| exact H4].
  rewrite Hp. apply elem_of_app. right. apply elem_of_app. left.
  apply list_elem_of_here.
Qed.

Lemma symbols_apart :
  Forall (fun c => c ∉ symbols) (lowers ++ uppers ++ digits).
Proof. apply (bool_decide_eq_true_1 _). vm_compute. reflexivity. Qed.

(** X12. A password is made of ASCII letters, digits and the listed symbols
    only, and holds no symbol at all when symbols are switched off. *)
Theorem generate_password_alphabet (length : Z) (use_symbols : bool) (g : rng) :
  (if use_symbols then 4 else 3) <= length →
  ∃ pw g',
    generate_password length use_symbols g = Returns pw g'
    ∧ Forall (fun c => c ∈ lowers ∨ c ∈ uppers ∨ c ∈ digits ∨ c ∈ symbols) pw
    ∧ (use_symbols = false → Forall (fun c => c ∉ symbols) pw).
Proof.
  intros Hmin.
  destruct (generate_password_parts length use_symbols g Hmin)
    as (c1 & c2 & c3 & s4 & added & pw & g' & E & Hp & H1 & H2 & H3 & H4 & Hf & _).
  exists pw, g'. split; [exact E |].
  assert (Hall : Forall (fun c => c ∈ pool_of use_symbols)
                   ([c1; c2; c3] ++ s4 ++ added)).
  { assert (Hsub : ∀ c, c ∈ lowers ++ uppers ++ digits → c ∈ pool_of use_symbols).
    { intros c Hc. unfold pool_of. destruct use_symbols; [| exact Hc].
      apply elem_of_app. left. exact Hc. }
    apply Forall_app. split.
    - repeat (apply Forall_cons; split;
                [apply Hsub; rewrite !elem_of_app; tauto |]).
      apply Forall_nil_2.
    - apply Forall_app. split; [| exact Hf].
      destruct use_symbols.
      + destruct H4 as (c4 & -> & H4).
        apply Forall_cons. split; [| apply Forall_nil_2].
        unfold pool_of. apply elem_of_app. right. exact H4.
      + rewrite H4. apply Forall_nil_2. }
  rewrite <- Hp in Hall. split.
  - eapply Forall_impl; [exact Hall |]. intros c Hc. unfold pool_of in Hc.
    destruct use_symbols; rewrite !elem_of_app in Hc; tauto.
  - intros ->. eapply Forall_impl; [exact Hall |]. intros c Hc.
    unfold pool_of in Hc. pose proof symbols_apart as Ha.
    rewrite Forall_forall in Ha. apply Ha, Hc.
Qed.

Lemma print_passwords_ok (passes : nat) (length : Z) (use_symbols : bool)
    (out : list str) (g : rng) :
  (if use_symbols then 4 else 3) <= length →
  ∃ new g',
    print_passwords passes length use_symbols out g
    = (out ++ new, Returns tt g')
    ∧ List.length new = passes
    ∧ Forall (fun pw => Z.of_nat (List.length pw) = length) new.
Proof.
  intros Hmin. revert out g. induction passes as [|n IH]; intros out g.
  - exists [], g. rewrite app_nil_r. split; [reflexivity |].
    split; [reflexivity | constructor].
  - destruct (generate_password_parts length use_symbols g Hmin)
      as (_ & _ & _ & _ & _ & pw & g1 & E & _ & _ & _ & _ & _ & _ & Hl).
    destruct (IH (out ++ [pw]) g1) as (new & g' & En & Hn & Hf).
    exists (pw :: new), g'. simpl. rewrite E, En, <- app_assoc.
    split; [reflexivity |]. split; [simpl; lia |].
    constructor; assumption.
Qed.

(** X13. [main] stops with an error message, before printing anything, on a
    length or a count that is not positive (the length is checked first) and
    on a positive length below the minimum of [generate_password]. *)
Theorem main_rejects_bad_arguments (a : args) (g : rng) :
  (length a <= 0 → main a g = ([], Raises (SystemExit BadLength)))
  ∧ (0 < length a → count a <= 0 →
     main a g = ([], Raises (SystemExit BadCount)))
  ∧ (0 < length a → 0 < count a →
     length a < (if no_symbols a then 3 else 4) →
     main a g
     = ([], Raises (SystemExit
                      (Error (TooShort (if no_symbols a then 3 else 4)))))).
Proof.
  unfold main. split; [| split].
  - intros Hl. destruct (Z.leb_spec (length a) 0); [reflexivity | lia].
  - intros Hl Hc. destruct (Z.leb_spec (length a) 0); [lia |].
    destruct (Z.leb_spec (count a) 0); [reflexivity | lia].
  - intros Hl Hc Hs. destruct (Z.leb_spec (length a) 0); [lia |].
    destruct (Z.leb_spec (count a) 0); [lia |].
    destruct (Z.to_nat (count a)) as [|n] eqn:En; [lia |].
    simpl. unfold generate_password.
    destruct (no_symbols a); simpl in *.
    + destruct (Z.ltb_spec (length a) 3); [reflexivity | lia].
    + destruct (Z.ltb_spec (length a) 4); [reflexivity | lia].
Qed.

(** X14. With a positive count and a length of at least 4 (3 without symbols),
    [main] prints exactly [count] passwords, each of [length] characters,
    and ends normally. *)
Theorem main_prints_count_passwords (a : args) (g : rng) :
  (if no_symbols a then 3 else 4) <= length a → 0 < count a →
  ∃ out g',
    main a g = (out, Returns tt g')
    ∧ Z.of_nat (List.length out) = count a
    ∧ Forall (fun pw => Z.of_nat (List.length pw) = length a) out.
Proof.
  intros Hl Hc. unfold main.
  destruct (Z.leb_spec (length a) 0); [destruct (no_symbols a); lia |].
  destruct (Z.leb_spec (count a) 0); [lia |].
  destruct (print_passwords_ok (Z.to_nat (count a)) (length a)
              (negb (no_symbols a)) [] g) as (new & g' & E & Hn & Hf).
  { destruct (no_symbols a); exact Hl. }
  rewrite E. exists new, g'. split; [reflexivity |]. split; [lia | exact Hf].
Qed.

End PasswordGenFacts.

(** * Properties of the file counter *)

Section FileStatsFacts.
Import FileStats.

Lemma split_from_app (w a b : str) :
  (∃ c, last a = Some c ∧ is_space c = true) →
  split_from w (a ++ b) = split_from w a ++ split_from [] b.
Proof.
  revert w. induction a as [|x a IH]; intros w (c & Hl & Hc).
  - discriminate.
  - destruct a as [|y a].
    + simpl in Hl. injection Hl as ->. simpl. rewrite Hc.
      destruct w; reflexivity.
    + assert (Hl' : ∃ c, last (y :: a) = Some c ∧ is_space c = true).
      { exists c. split; [| exact Hc]. rewrite <- Hl. reflexivity. }
      change ((x :: y :: a) ++ b) with (x :: ((y :: a) ++ b)).
      cbn [split_from]. destruct (is_space x).
      * destruct w; rewrite (IH [] Hl'); reflexivity.
      * apply IH, Hl'.
Qed.

Lemma count_lines_from (ls : list str) (c0 : counts) :
  lines (for_lines ls c0) = lines c0 + Z.of_nat (length ls)
  ∧ chars (for_lines ls c0) = chars c0 + Z.of_nat (length (concat ls))
  ∧ words (for_lines ls c0)
    = words c0 + Z.of_nat (length (concat (map split ls))).
Proof.
  unfold for_lines. revert c0. induction ls as [|l ls IH]; intros c0; simpl.
  - repeat split; lia.
  - destruct (IH (line_body l c0)) as (A & B & C).
    rewrite A, B, C, !length_app. simpl. repeat split; lia.
Qed.

Lemma split_concat (ls : list str) :
  Forall (fun l => ∃ c, last l = Some c ∧ is_space c = true)
    (take (length ls - 1) ls) →
  concat (map split ls) = split (concat ls).
Proof.
  induction ls as [|l ls IH]; intros Hall; [reflexivity |].
  destruct ls as [|l' ls].
  - simpl. rewrite !app_nil_r. reflexivity.
  - assert (Hk : take (length (l :: l' :: ls) - 1) (l :: l' :: ls)
                 = l :: take (length (l' :: ls) - 1) (l' :: ls)).
    { simpl. rewrite Nat.sub_0_r. reflexivity. }
    rewrite Hk in Hall. clear Hk.
    apply Forall_cons in Hall. destruct Hall as [Hl Hall].
    change (concat (map split (l :: l' :: ls)))
      with (split l ++ concat (map split (l' :: ls))).
    rewrite IH.
    + change (concat (l :: l' :: ls)) with (l ++ concat (l' :: ls)).
      unfold split. symmetry. apply split_from_app, Hl.
    + exact Hall.
Qed.

(** One pass of the loop: either the calls on the path end the run, with
    nothing printed, or one line is printed and the totals grow by the
    columns of that line. *)
Lemma file_body_cases (p : str) (f : file) (st : locals) :
  (∃ e, aborts f = Some e ∧ file_body (p, f) st = Abort st e)
  ∨ (aborts f = None
     ∧ ∃ m st',
         file_body (p, f) st = Continue st'
         ∧ out st' = out st ++ [m]
         ∧ path_of m = Some p ∧ is_counts m = readable f
         ∧ (readable f = true →
            m = Counts p (lines (for_lines (content f)
                                   {| lines := 0; words := 0; chars := 0 |}))
                  (words (for_lines (content f)
                            {| lines := 0; words := 0; chars := 0 |}))
                  (chars (for_lines (content f)
                            {| lines := 0; words := 0; chars := 0 |})))
         ∧ total_lines st' = total_lines st + (column_sums [m]).1.1
         ∧ total_words st' = total_words st + (column_sums [m]).1.2
         ∧ total_chars st' = total_chars st + (column_sums [m]).2
         ∧ processed st' = processed st + (if is_counts m then 1 else 0)).
Proof.
  destruct f as [ex isf op ls fin].
  unfold file_body, aborts, readable, count_file. simpl.
  destruct ex as [e|[|]];
    [| destruct isf as [e|[|]];
       [| destruct op as [[| |]|[]];
          [| | | destruct fin as [[| |]|[]]] |] |].
  all: first
    [ left; eexists; split; reflexivity
    | right; split; [reflexivity |]; eexists _, _;
      split; [reflexivity |]; simpl;
      repeat split; simpl; try lia; try reflexivity;
      try (intros; discriminate) ].
Qed.

Lemma for_files_cons (arg : str * file) (files : list (str * file))
    (st : locals) :
  for_files (arg :: files) st
  = match file_body arg st with
    | Continue st' => for_files files st'
    | Abort st' e => Abort st' e
    end.
Proof. reflexivity. Qed.

Lemma for_files_app (xs ys : list (str * file)) (st : locals) :
  for_files (xs ++ ys) st
  = match for_files xs st with
    | Continue st' => for_files ys st'
    | Abort st' e => Abort st' e
    end.
Proof.
  revert st. induction xs as [|x xs IH]; intros st; [reflexivity |].
  change ((x :: xs) ++ ys) with (x :: (xs ++ ys)). rewrite !for_files_cons.
  destruct (file_body x st); [apply IH | reflexivity].
Qed.

(** The loop over the files, from any state: the arguments before the first
    one that ends the run get one line each, in order, and the totals grow
    by the columns of the count lines. *)
Lemma files_loop (files : list (str * file)) (st : locals) :
  ∃ done rest msgs,
    files = done ++ rest
    ∧ Forall (fun arg => aborts arg.2 = None) done
    ∧ Forall2 (fun arg m => path_of m = Some arg.1
                            ∧ is_counts m = readable arg.2) done msgs
    ∧ out (last_state (for_files files st)) = out st ++ msgs
    ∧ total_lines (last_state (for_files files st))
      = total_lines st + (column_sums msgs).1.1
    ∧ total_words (last_state (for_files files st))
      = total_words st + (column_sums msgs).1.2
    ∧ total_chars (last_state (for_files files st))
      = total_chars st + (column_sums msgs).2
    ∧ processed (last_state (for_files files st))
      = processed st + Z.of_nat (length (filter is_counts msgs))
    ∧ match rest with
      | [] => ∃ st', for_files files st = Continue st'
      | arg :: _ =>
          ∃ st' e, aborts arg.2 = Some e ∧ for_files files st = Abort st' e
      end.
Proof.
  revert st. induction files as [|[p f] files IH]; intros st.
  - exists [], [], []. simpl. rewrite app_nil_r.
    repeat split; try lia; try constructor. eexists; reflexivity.
  - destruct (file_body_cases p f st)
      as [(e & Ha & Eb)
         |(Ha & m & st1 & Eb & So & Sp & Sk & _ & Sl & Sw & Sc & Sn)].
    + exists [], ((p, f) :: files), []. rewrite for_files_cons, Eb. simpl.
      rewrite app_nil_r.
      repeat split; try lia; try constructor.
      exists st, e. split; [exact Ha | reflexivity].
    + destruct (IH st1)
        as (done & rest & msgs & Hf & Hn & H2 & Ho & Hl & Hw & Hc & Hp & Hr).
      exists ((p, f) :: done), rest, (m :: msgs).
      rewrite for_files_cons, Eb.
      rewrite Ho, Hl, Hw, Hc, Hp, So, Sl, Sw, Sc, Sn, <- app_assoc.
      split; [rewrite Hf; reflexivity |].
      split; [constructor; [exact Ha | exact Hn] |].
      split; [constructor; [split; assumption | exact H2] |].
      split; [reflexivity |].
      rewrite filter_cons.
      destruct rest; (split; [| split; [| split; [| split; [| exact Hr]]]]);
        destruct m; simpl in *; destruct (column_sums msgs) as [[L W] C];
        simpl; lia.
Qed.

Lemma counted_iff (msgs : list message) :
  (Z.of_nat (length (filter is_counts msgs)) >? 0) = existsb is_counts msgs.
Proof.
  induction msgs as [|m msgs IH]; [reflexivity |].
  rewrite filter_cons. simpl. destruct (is_counts m); simpl; [| exact IH].
  destruct (Z.gtb_spec (Z.pos (Pos.of_succ_nat
                                 (length (filter is_counts msgs)))) 0);
    [reflexivity | lia].
Qed.

(** X15. Up to the first argument on which a library call raises an
    exception that the loop does not catch, every argument gets exactly one
    line, in the order of the arguments, naming its path; it is a count line
    exactly for the files that could be read. If there is such an argument
    the run ends there with that exception, with nothing printed for it or
    after it. Otherwise a [TOTAL] line follows exactly when [--total] is
    given and some count line was printed, and it carries the sums of the
    three columns of the count lines. *)
Theorem output_shape (files : list (str * file)) (total : bool) :
  ∃ done rest msgs,
    files = done ++ rest
    ∧ Forall (fun arg => aborts arg.2 = None) done
    ∧ Forall2 (fun arg m => path_of m = Some arg.1
                            ∧ is_counts m = readable arg.2) done msgs
    ∧ match rest with
      | [] =>
          main files total
          = (msgs ++ (if total && existsb is_counts msgs
                      then [Total (column_sums msgs).1.1
                              (column_sums msgs).1.2 (column_sums msgs).2]
                      else []),
             None)
      | arg :: _ =>
          ∃ e, aborts arg.2 = Some e ∧ main files total = (msgs, Some e)
      end.
Proof.
  unfold main.
  destruct (files_loop files {| out := []; total_lines := 0; total_words := 0;
                                total_chars := 0; processed := 0 |})
    as (done & rest & msgs & Hf & Hn & H2 & Ho & Hl & Hw & Hc & Hp & Hr).
  exists done, rest, msgs. split; [exact Hf |]. split; [exact Hn |].
  split; [exact H2 |]. simpl in *.
  destruct rest as [|arg rest].
  - destruct Hr as (st' & E). rewrite E in *. simpl in *.
    rewrite Ho, Hl, Hw, Hc, Hp, !Z.add_0_l, counted_iff.
    destruct (total && existsb is_counts msgs);
      [reflexivity | rewrite app_nil_r; reflexivity].
  - destruct Hr as (st' & e & Ha & E). rewrite E in *. simpl in *.
    exists e. split; [exact Ha |]. rewrite Ho. reflexivity.
Qed.


(** X17. For a readable file among the arguments, with no argument before it
    on which an uncaught exception ends the run, a line is printed with its
    path, the number of its lines, the number of words of its lines and the
    number of characters of its text. When every line but the last ends in
    whitespace, as the lines of a text file do with their newline, the words
    counted line by line are the words of the whole text. *)
Theorem counts_of_readable_file (before after : list (str * file))
    (total : bool) (p : str) (f : file) :
  Forall (fun arg => aborts arg.2 = None) before →
  readable f = true →
  ∃ w,
    Counts p (Z.of_nat (length (content f))) w
      (Z.of_nat (length (concat (content f))))
    ∈ (main (before ++ (p, f) :: after) total).1
    ∧ w = Z.of_nat (length (concat (map split (content f))))
    ∧ (Forall (fun l => ∃ c, last l = Some c ∧ is_space c = true)
         (take (length (content f) - 1) (content f)) →
       w = Z.of_nat (length (split (concat (content f))))).
Proof.
  intros Hbefore Hread. eexists. split; [| split; [reflexivity |]].
  - set (init := {| out := []; total_lines := 0; total_words := 0;
                    total_chars := 0; processed := 0 |}).
    assert (Hin : Counts p (Z.of_nat (length (content f)))
                    (Z.of_nat (length (concat (map split (content f)))))
                    (Z.of_nat (length (concat (content f))))
                  ∈ out (last_state
                           (for_files (before ++ (p, f) :: after) init))).
    { rewrite for_files_app.
      destruct (files_loop before init)
        as (done & rest & msgs & Hf & _ & _ & Ho & _ & _ & _ & _ & Hr).
      destruct rest as [|arg rest].
      2:{ exfalso. destruct Hr as (_ & e & Ha & _).
          rewrite Forall_forall in Hbefore.
          rewrite (Hbefore arg) in Ha; [discriminate |].
          rewrite Hf. apply elem_of_app. right. apply list_elem_of_here. }
      destruct Hr as (st1 & E1). rewrite E1. cbv beta iota.
      rewrite for_files_cons.
      destruct (file_body_cases p f st1)
        as [(e & Ha & _)|(_ & m & st2 & Eb & So & _ & _ & Sm & _)].
      { unfold aborts, readable in *.
        destruct (exists_ f) as [|[|]], (is_file f) as [|[|]],
          (opens f), (reading_ends f); discriminate. }
      rewrite Eb. cbv beta iota.
      destruct (files_loop after st2)
        as (_ & _ & msgs' & _ & _ & _ & Ho' & _).
      rewrite Ho', So, (Sm Hread).
      destruct (count_lines_from (content f)
                  {| lines := 0; words := 0; chars := 0 |}) as (A & B & C).
      simpl in A, B, C. rewrite A, B, C.
      apply elem_of_app. left. apply elem_of_app. right.
      apply list_elem_of_here. }
    unfold main. fold init.
    destruct (for_files (before ++ (p, f) :: after) init) as [st|st e];
      simpl in *.
    + destruct (total && _); [apply elem_of_app; left |]; exact Hin.
    + exact Hin.
  - intros Hterm. rewrite (split_concat _ Hterm). reflexivity.
Qed.

End FileStatsFacts.

(** ** The program run on small files *)

Section Scenarios.
Import Sample.
#[local] Existing Instance Sample.host.

(** What the summary shows of a line. *)
Definition shown (l : column_line) : str * Z * PrimFloat.float :=
  (col_type l, miss l, miss_pct l).

(** The row count, the summary and the preview of a report. *)
Definition digest (r : result report)
  : option (Z * list (str * Z * PrimFloat.float) * list Row) :=
  match r with
  | Ok rep => Some (out_rows rep, map shown (out_summary rep), out_preview rep)
  | Raise _ => None
  end.

(** Header [a,b], rows [1,] and [2.5,x], [--head 1]. *)
Example scenario_two_columns :
  digest (main (file 1 ["a"; "b"]
                  [[("a", "1"); ("b", "")]; [("a", "2.5"); ("b", "x")]])%string)
  = Some (2, [(lit "numeric", 0, 0%float); (lit "text", 1, 50%float)],
          [row [("a", "1"); ("b", "")]%string]).
Proof. vm_compute. reflexivity. Qed.

(** Header [x] and no row. *)
Example scenario_no_rows :
  digest (main (file 5 ["x"%string] []))
  = Some (0, [(lit "empty", 0, 0%float)], []).
Proof. vm_compute. reflexivity. Qed.

(** Header [n], a whitespace-only field and the field [3]. *)
Example scenario_blank_field :
  digest (main (file 5 ["n"%string] [[("n", "  ")]; [("n", "3")]]%string))
  = Some (2, [(lit "numeric", 1, 50%float)],
          [row [("n", "  ")]%string; row [("n", "3")]%string]).
Proof. vm_compute. reflexivity. Qed.

(** A short line: the reader stores [None] for the column it has no field
    for, and the column counts it as missing. *)
Example scenario_short_line :
  digest (main {| arg_head := 0; path_exists := true; path_is_file := true;
                  fieldnames := Some columns_ab;
                  records :=
                    [ <[lit "b" := VNone]> (row [("a", "7")]%string) ] |})
  = Some (1, [(lit "numeric", 0, 0%float); (lit "empty", 1, 100%float)], []).
Proof. vm_compute. reflexivity. Qed.

(** C9, as stated, fails: with [--head 1] the row read from the line [1] is
    captured, and a write to that row object after the loop changes what the
    preview entry reads. *)
Lemma preview_entry_follows_row :
  ∃ σ st,
    run 1 [lit "a"] [row [("a", "1")]%string] = Ok (σ, st)
    ∧ preview_rows st = [0%nat]
    ∧ map (deref σ) (preview_rows st) = [row [("a", "1")]%string]
    ∧ map (deref (setitem σ 0%nat (lit "a") (VStr (lit "2")))) (preview_rows st)
      ≠ map (deref σ) (preview_rows st).
Proof.
  destruct (run_effect 1 [lit "a"] [row [("a", "1")]%string])
    as (σ & st & E & _).
  pose proof (run_preview _ _ _ _ _ E) as Hp. simpl in Hp.
  pose proof (run_store _ _ _ _ _ E) as Hs. simpl in Hs.
  exists σ, st. split; [exact E |]. split; [exact Hp |].
  rewrite Hp. split; [exact Hs |].
  simpl. unfold deref at 1. simpl. injection Hs as Hs.
  unfold deref in Hs. rewrite Hs.
  intros Eq.
  apply (f_equal (fun l : list Row => (fun m : Row => m !! lit "a") <$> l)) in Eq.
  vm_compute in Eq. discriminate.
Qed.

(** The theorems above at the file [a,b] / [1,] / [2.5,x]. *)

Lemma b_in_columns_ab : lit "b" ∈ columns_ab.
Proof. apply list_elem_of_further, list_elem_of_here. Defined.

Lemma columns_ab_distinct : NoDup columns_ab.
Proof. apply (bool_decide_unpack _). vm_compute. exact I. Defined.


Lemma numeric_possible_iff_witness :
  lit "b" ∈ columns_ab
  ∧ ∃ σ st possible,
      run 1 columns_ab rows_ab = Ok (σ, st)
      ∧ numeric_possible st !! lit "b" = Some possible
      ∧ (possible = false ↔
         ∃ r, r ∈ rows_ab ∧ is_missing (field r (lit "b")) = false
              ∧ is_number (strip (field r (lit "b"))) = false).
Proof.
  split; [exact b_in_columns_ab |].
  destruct (numeric_possible_iff 1 columns_ab rows_ab (lit "b") b_in_columns_ab)
    as (σ & st & possible & E & L & I & _).
  exists σ, st, possible. split; [exact E | split; [exact L | exact I]].
Defined.

Lemma preview_is_prefix_witness :
  0 <= 1
  ∧ ∃ σ st,
      run 1 columns_ab rows_ab = Ok (σ, st)
      ∧ Z.of_nat (length (preview_rows st)) = Z.min 1 (row_count st)
      ∧ map (deref σ) (preview_rows st) = take (Z.to_nat 1) rows_ab.
Proof.
  assert (Hh : 0 <= 1) by (intros Hc; discriminate Hc).
  split; [exact Hh |].
  destruct (preview_is_prefix 1 columns_ab rows_ab Hh)
    as (σ & st & E & _ & Hl & Hp & _).
  exists σ, st. split; [exact E | split; [exact Hl | exact Hp]].
Defined.


(** A row of the file above that is too short for the column [b]. *)
Definition short_row : Row := row [("a", "7")]%string.

Lemma short_row_lacks_b :
  short_row !! lit "b" = None ∨ short_row !! lit "b" = Some VNone.
Proof. left. vm_compute. reflexivity. Defined.

Lemma absent_field_counts_missing_witness :
  lit "b" ∈ columns_ab
  ∧ (short_row !! lit "b" = None ∨ short_row !! lit "b" = Some VNone)
  ∧ ∃ σ0 st σ1 st1 m,
      run 1 columns_ab rows_ab = Ok (σ0, st)
      ∧ run 1 columns_ab (rows_ab ++ [short_row]) = Ok (σ1, st1)
      ∧ missing_counts st !! lit "b" = Some m
      ∧ missing_counts st1 !! lit "b" = Some (m + 1)
      ∧ numeric_possible st1 !! lit "b" = numeric_possible st !! lit "b".
Proof.
  split; [exact b_in_columns_ab |]. split; [exact short_row_lacks_b |].
  destruct (absent_field_counts_missing 1 columns_ab rows_ab short_row
              (lit "b") b_in_columns_ab short_row_lacks_b)
    as (σ0 & st & σ1 & st1 & σ1' & m & E & _ & E1 & _ & _ & Hm & _ & _
        & Hone & Hflag & _).
  exists σ0, st, σ1, st1, m.
  split; [exact E |]. split; [exact E1 |]. split; [exact Hm |].
  split; [exact (Hone columns_ab_distinct) | exact Hflag].
Defined.

Lemma head_independent_witness :
  0 <= 0 ∧ 0 <= 3
  ∧ ∃ σ1 st1 σ2 st2,
      run 0 columns_ab rows_ab = Ok (σ1, st1)
      ∧ run 3 columns_ab rows_ab = Ok (σ2, st2)
      ∧ row_count st1 = row_count st2
      ∧ missing_counts st1 = missing_counts st2
      ∧ non_missing_seen st1 = non_missing_seen st2
      ∧ numeric_possible st1 = numeric_possible st2.
Proof.
  assert (H0 : 0 <= 0) by (intros Hc; discriminate Hc).
  assert (H3 : 0 <= 3) by (intros Hc; discriminate Hc).
  split; [exact H0 | split; [exact H3 |]].
  destruct (head_independent 0 3 columns_ab rows_ab H0 H3)
    as (σ1 & st1 & σ2 & st2 & _ & _ & E1 & E2 & Hr & Hm & Hs & Hp & _).
  exists σ1, st1, σ2, st2.
  split; [exact E1 | split; [exact E2 | split; [exact Hr |]]].
  split; [exact Hm | split; [exact Hs | exact Hp]].
Defined.

Definition input_ab : input :=
  {| arg_head := 1; path_exists := true; path_is_file := true;
     fieldnames := Some columns_ab; records := rows_ab |}.

Lemma zero_le_one : 0 <= 1.
Proof. intros Hc. discriminate Hc. Defined.

Lemma report_follows_header_witness :
  0 <= arg_head input_ab ∧ path_exists input_ab = true
  ∧ path_is_file input_ab = true ∧ fieldnames input_ab = Some columns_ab
  ∧ ∃ rep,
      main input_ab = Ok rep
      ∧ map col_name (out_summary rep) = columns_ab
      ∧ out_preview rep = take (Z.to_nat (arg_head input_ab)) (records input_ab).
Proof.
  split; [exact zero_le_one |]. split; [reflexivity |].
  split; [reflexivity |]. split; [reflexivity |].
  destruct (report_follows_header input_ab columns_ab zero_le_one
              eq_refl eq_refl eq_refl)
    as (rep & E & _ & Hs & _ & Hp & _).
  exists rep. split; [exact E | split; [exact Hs | exact Hp]].
Defined.



Lemma counters_sum_distinct_witness :
  NoDup columns_ab ∧ lit "b" ∈ columns_ab
  ∧ ∃ σ st m n,
      run 1 columns_ab rows_ab = Ok (σ, st)
      ∧ missing_counts st !! lit "b" = Some m
      ∧ non_missing_seen st !! lit "b" = Some n
      ∧ m + n = row_count st.
Proof.
  split; [exact columns_ab_distinct |]. split; [exact b_in_columns_ab |].
  exact (counters_sum_distinct 1 columns_ab rows_ab (lit "b")
           columns_ab_distinct b_in_columns_ab).
Defined.

Lemma rows_order_irrelevant_witness :
  rows_ab ≡ₚ reverse rows_ab
  ∧ ∃ σ st σ' st',
      run 1 columns_ab rows_ab = Ok (σ, st)
      ∧ run 1 columns_ab (reverse rows_ab) = Ok (σ', st')
      ∧ stats st = stats st'.
Proof.
  assert (Hp : rows_ab ≡ₚ reverse rows_ab)
    by (symmetry; apply reverse_Permutation).
  split; [exact Hp |].
  destruct (rows_order_irrelevant 1 columns_ab rows_ab (reverse rows_ab) Hp)
    as (σ & st & σ' & st' & E & E' & Hs & _).
  exists σ, st, σ', st'. split; [exact E | split; [exact E' | exact Hs]].
Defined.

Lemma rows_append_witness :
  lit "b" ∈ columns_ab
  ∧ ∃ σ1 st1 σ st,
      run 1 columns_ab rows_ab = Ok (σ1, st1)
      ∧ run 1 columns_ab (rows_ab ++ rows_ab) = Ok (σ, st)
      ∧ row_count st = row_count st1 + row_count st1.
Proof.
  split; [exact b_in_columns_ab |].
  destruct (rows_append 1 columns_ab rows_ab rows_ab (lit "b") b_in_columns_ab)
    as (σ1 & st1 & σ2 & st2 & σ & st & m1 & m2 & n1 & n2 & p1 & p2
        & E1 & E2 & E & _ & _ & _ & _ & _ & _ & Hr & _).
  rewrite E1 in E2. injection E2 as <- <-.
  exists σ1, st1, σ, st. split; [exact E1 | split; [exact E | exact Hr]].
Defined.

(** A row with an entry the header does not name. *)
Definition row_with_extra : Row :=
  <[lit "z" := VStr (lit "extra")]> (row [("a", "1")]%string).

Lemma only_header_fields_matter_witness :
  Forall2 (fun r r' => ∀ c, c ∈ [lit "a"] → field r c = field r' c)
    [row [("a", "1")]%string] [row_with_extra]
  ∧ ∃ σ st σ' st',
      run 1 [lit "a"] [row [("a", "1")]%string] = Ok (σ, st)
      ∧ run 1 [lit "a"] [row_with_extra] = Ok (σ', st')
      ∧ stats st = stats st'.
Proof.
  assert (Hf : Forall2 (fun r r' => ∀ c, c ∈ [lit "a"] → field r c = field r' c)
                 [row [("a", "1")]%string] [row_with_extra]).
  { constructor; [| constructor]. intros c Hc.
    apply list_elem_of_singleton in Hc. rewrite Hc. vm_compute. reflexivity. }
  split; [exact Hf |].
  exact (only_header_fields_matter 1 [lit "a"] _ _ Hf).
Defined.

(** Another answer of [float] on the empty string. *)
Definition parses_or_empty (s : str) : bool :=
  match s with
  | [] => true
  | _ => parses s
  end.

Lemma float_never_sees_blank_witness :
  (∀ s, s ≠ lit "" → strip s = s → parses_or_empty s = float_parses s)
  ∧ @run (with_parser Sample.host parses_or_empty) 1 columns_ab rows_ab
    = @run Sample.host 1 columns_ab rows_ab.
Proof.
  assert (Hp : ∀ s, s ≠ lit "" → strip s = s →
                    parses_or_empty s = float_parses s).
  { intros s Hs _. destruct s; [contradiction Hs; reflexivity | reflexivity]. }
  split; [exact Hp |].
  exact (float_never_sees_blank parses_or_empty 1 columns_ab rows_ab Hp).
Defined.

(** The password generator on the source that hands out 0, 1, 2, ... *)

Lemma four_le_eight : (if true then 4 else 3) <= 8.
Proof. intros Hc. discriminate Hc. Defined.

Lemma three_le_three : (if false then 4 else 3) <= 3.
Proof. intros Hc. discriminate Hc. Defined.

Example password_of_eight :
  match PasswordGen.generate_password 8 true (fun i => i) with
  | PasswordGen.Returns pw _ => Some pw
  | PasswordGen.Raises _ => None
  end = Some (lit "g$fhBe2a").
Proof. vm_compute. reflexivity. Qed.

Lemma generate_password_classes_witness :
  (if true then 4 else 3) <= 8
  ∧ ∃ pw g',
      PasswordGen.generate_password 8 true (fun i => i)
      = PasswordGen.Returns pw g'
      ∧ (∃ c, c ∈ pw ∧ c ∈ PasswordGen.symbols).
Proof.
  split; [exact four_le_eight |].
  destruct (generate_password_classes 8 true (fun i => i) four_le_eight)
    as (pw & g' & E & _ & _ & _ & Hs).
  exists pw, g'. split; [exact E | exact (Hs eq_refl)].
Defined.

Lemma generate_password_alphabet_witness :
  (if false then 4 else 3) <= 3
  ∧ ∃ pw g',
      PasswordGen.generate_password 3 false (fun i => i)
      = PasswordGen.Returns pw g'
      ∧ Forall (fun c => c ∉ PasswordGen.symbols) pw.
Proof.
  split; [exact three_le_three |].
  destruct (generate_password_alphabet 3 false (fun i => i) three_le_three)
    as (pw & g' & E & _ & Hs).
  exists pw, g'. split; [exact E | exact (Hs eq_refl)].
Defined.

Definition two_of_eight : PasswordGen.args :=
  {| PasswordGen.length := 8; PasswordGen.count := 2;
     PasswordGen.no_symbols := false |}.

Lemma main_prints_count_passwords_witness :
  (if PasswordGen.no_symbols two_of_eight then 3 else 4)
  <= PasswordGen.length two_of_eight
  ∧ 0 < PasswordGen.count two_of_eight
  ∧ ∃ out g',
      PasswordGen.main two_of_eight (fun i => i)
      = (out, PasswordGen.Returns tt g')
      ∧ Z.of_nat (length out) = 2.
Proof.
  assert (Hl : (if PasswordGen.no_symbols two_of_eight then 3 else 4)
               <= PasswordGen.length two_of_eight)
    by (intros Hc; discriminate Hc).
  assert (Hc : 0 < PasswordGen.count two_of_eight) by reflexivity.
  split; [exact Hl |]. split; [exact Hc |].
  destruct (main_prints_count_passwords two_of_eight (fun i => i) Hl Hc)
    as (out & g' & E & Hn & _).
  exists out, g'. split; [exact E | exact Hn].
Defined.

(** The file counter on a directory, a missing file and a two-line file. *)

Definition two_lines : list str := [lit "one two" ++ [10%N]; lit "three"].

Definition four_arguments : list (str * FileStats.file) :=
  [(lit "dir", directory);
   (lit "notes.txt", text two_lines);
   (lit "gone", missing);
   (lit "latin1.txt", undecodable [lit "caf"])].

Example counter_on_four_arguments :
  FileStats.main four_arguments true
  = ([FileStats.NotAFile (lit "dir");
      FileStats.Counts (lit "notes.txt") 2 3 13;
      FileStats.FileNotFound (lit "gone");
      FileStats.NotUtf8 (lit "latin1.txt");
      FileStats.Total 2 3 13],
     None).
Proof. vm_compute. reflexivity. Qed.

(** A path on which [p.exists()] raises ends the run: the file after it is
    not counted, and no total is printed. *)
Example counter_stops_at_refused_path :
  FileStats.main
    [(lit "gone", missing);
     (lit "overlong", refused FileStats.OtherError);
     (lit "notes.txt", text two_lines)] true
  = ([FileStats.FileNotFound (lit "gone")], Some FileStats.OtherError).
Proof. vm_compute. reflexivity. Qed.

Lemma nothing_aborts_before_notes :
  Forall (fun arg => aborts arg.2 = None) [(lit "dir", directory)].
Proof. apply Forall_cons. split; [reflexivity | apply Forall_nil_2]. Defined.

Lemma counts_of_readable_file_witness :
  Forall (fun arg => aborts arg.2 = None) [(lit "dir", directory)]
  ∧ readable (text two_lines) = true
  ∧ ∃ w,
      FileStats.Counts (lit "notes.txt") (Z.of_nat (length two_lines)) w
        (Z.of_nat (length (concat two_lines)))
      ∈ (FileStats.main four_arguments true).1
      ∧ w = Z.of_nat (length (concat (map FileStats.split two_lines))).
Proof.
  split; [exact nothing_aborts_before_notes |]. split; [reflexivity |].
  destruct (counts_of_readable_file [(lit "dir", directory)]
              [(lit "gone", missing);
               (lit "latin1.txt", undecodable [lit "caf"])]
              true (lit "notes.txt") (text two_lines)
              nothing_aborts_before_notes eq_refl) as (w & Hw & Hs & _).
  exists w. split; [exact Hw | exact Hs].
Defined.

End Scenarios.
